(** * ChatBot UI: the login gate and the chat transcript

    A shallow embedding of [src/App.tsx] (the [App] shell and the
    [AuthForm] component it contains) and [src/components/Chat.tsx],
    with the properties their specification states about them.

    The event handlers of the two components are [async] functions: they
    perform state updates, suspend at [await]s, may throw, and use
    [try]/[catch]/[finally].  They are embedded as finite trees of
    actions and suspension points (section [Handlers]); the components
    are then state machines whose events are the user's actions and the
    settlements of the promises the handlers wait on. *)

From Stdlib Require Import String Ascii List Bool Arith Lia.
Import ListNotations.
Local Open Scope string_scope.
Local Open Scope list_scope.

(* ================================================================== *)
(** * JavaScript strings *)
(* ================================================================== *)

(** A string is its sequence of code units; the model keeps code units
    below 256, one [ascii] each. *)
Module Js.

(** The code units below 256 that ECMAScript counts as [WhiteSpace] or
    [LineTerminator]: TAB, LF, VT, FF, CR, SP and NBSP. *)
Definition is_whitespace (c : ascii) : bool :=
  let n := nat_of_ascii c in
  ((9 <=? n)%nat && (n <=? 13)%nat) || (n =? 32)%nat || (n =? 160)%nat.

Fixpoint trimStart (s : string) : string :=
  match s with
  | EmptyString => EmptyString
  | String c r => if is_whitespace c then trimStart r else s
  end.

Fixpoint trimEnd (s : string) : string :=
  match s with
  | EmptyString => EmptyString
  | String c r =>
      let r' := trimEnd r in
      if is_whitespace c && (r' =? "") then EmptyString else String c r'
  end.

(** [String.prototype.trim] *)
Definition trim (s : string) : string := trimEnd (trimStart s).

(** [ToBoolean] on a string: only the empty string is falsy. *)
Definition truthy (s : string) : bool := negb (s =? "").

(** [s.startsWith(searchString)] *)
Definition startsWith (s searchString : string) : bool :=
  String.prefix searchString s.

(** [s.includes(searchString)] *)
Fixpoint includes (s searchString : string) : bool :=
  String.prefix searchString s
  || match s with
     | EmptyString => false
     | String _ r => includes r searchString
     end.

(** [s.split(sep)] for a separator of one code unit. *)
Fixpoint split (sep : ascii) (s : string) : list string :=
  match s with
  | EmptyString => [EmptyString]
  | String c r =>
      if Ascii.eqb c sep then EmptyString :: split sep r
      else match split sep r with
           | h :: t => String c h :: t
           | [] => [String c EmptyString]
           end
  end.

(** [x === y] where [x] is a string and [y] a string or [undefined]. *)
Definition strict_eq (x : string) (y : option string) : bool :=
  match y with
  | Some s => x =? s
  | None => false
  end.

(** The line feed written [\n] in the source's literals. *)
Definition LF : string := String (ascii_of_nat 10) EmptyString.

Definition whitespace_only (s : string) : bool :=
  forallb is_whitespace (list_ascii_of_string s).

End Js.

(** What a [throw] or a rejected promise carries: an [Error] object with
    its [message], or some other value (a [ProgressEvent], say). *)
Inductive Thrown : Type :=
| ErrorObject (message : string)
| OtherValue.

(** How an awaited promise settles. *)
Inductive Settled (X : Type) : Type :=
| Fulfilled (x : X)
| Rejected (e : Thrown).
Arguments Fulfilled {X} x.
Arguments Rejected {X} e.

(* ================================================================== *)
(** * Async handlers *)
(* ================================================================== *)

Section Handlers.

(** [Act]: what a handler does without suspending (state setters,
    console output); [Call]: what it awaits; [Reply c]: what the
    environment answers to the call [c]. *)
Context {Act Call : Type} {Reply : Call -> Type}.

Inductive Prog (A : Type) : Type :=
| Ret (a : A)
| Throw (e : Thrown)
| Do (a : Act) (k : Prog A)
| Await (c : Call) (k : Reply c -> Prog A).

Arguments Ret {A} a.
Arguments Throw {A} e.
Arguments Do {A} a k.
Arguments Await {A} c k.

Fixpoint bind {A B : Type} (p : Prog A) (f : A -> Prog B) : Prog B :=
  match p with
  | Ret a => f a
  | Throw e => Throw e
  | Do a k => Do a (bind k f)
  | Await c k => Await c (fun r => bind (k r) f)
  end.

Definition act (a : Act) : Prog unit := Do a (Ret tt).

(** [await] of a promise: its value when fulfilled, a throw when
    rejected. *)
Definition settle {X : Type} (r : Settled X) : Prog X :=
  match r with
  | Fulfilled x => Ret x
  | Rejected e => Throw e
  end.

(** [try { p } catch (error) { h error }] *)
Fixpoint try_catch {A : Type} (p : Prog A) (h : Thrown -> Prog A) : Prog A :=
  match p with
  | Ret a => Ret a
  | Throw e => h e
  | Do a k => Do a (try_catch k h)
  | Await c k => Await c (fun r => try_catch (k r) h)
  end.

(** [try { p } finally { f }] *)
Fixpoint finally {A : Type} (p : Prog A) (f : Prog unit) : Prog A :=
  match p with
  | Ret a => bind f (fun _ => Ret a)
  | Throw e => bind f (fun _ => Throw e)
  | Do a k => Do a (finally k f)
  | Await c k => Await c (fun r => finally (k r) f)
  end.

(** ** Running a handler *)

Context {St : Type} (perform : Act -> St -> St).

(** Run up to the next suspension point (or the end): the state
    reached and what is left of the handler. *)
Fixpoint run_sync {A : Type} (p : Prog A) (s : St) : St * Prog A :=
  match p with
  | Do a k => run_sync k (perform a s)
  | _ => (s, p)
  end.

(** What one handler run observes, in order. *)
Inductive Obs : Type :=
| Did (a : Act)
| Called (c : Call).

Inductive Result (A : Type) : Type :=
| Returned (a : A)
| Uncaught (e : Thrown).
Arguments Returned {A} a.
Arguments Uncaught {A} e.

(** Run to the end, with [env] settling every call at once and no
    other event in between. *)
Fixpoint exec {A : Type} (env : forall c, Reply c) (p : Prog A) (s : St)
  : St * list Obs * Result A :=
  match p with
  | Ret a => (s, [], Returned a)
  | Throw e => (s, [], Uncaught e)
  | Do a k =>
      let '(s', t, r) := exec env k (perform a s) in (s', Did a :: t, r)
  | Await c k =>
      let '(s', t, r) := exec env (k (env c)) s in (s', Called c :: t, r)
  end.

(** The suspension points of that run: each call awaited, with the
    state that is current (and rendered) while the call is outstanding. *)
Fixpoint suspensions {A : Type} (env : forall c, Reply c) (p : Prog A)
  (s : St) : list (Call * St) :=
  match p with
  | Ret _ => []
  | Throw _ => []
  | Do a k => suspensions env k (perform a s)
  | Await c k => (c, s) :: suspensions env (k (env c)) s
  end.

(** ** Several handlers in flight

    A component's handlers suspended at an [await], the calls issued so
    far and the exceptions no handler caught (the rejections of the
    promises the handlers return). *)
Record Runtime : Type := mkRuntime {
  state : St;
  inflight : list (Prog unit);
  calls : list Call;
  uncaught : list Thrown
}.

(** Start or continue the handler [p]: run it to its next suspension
    point and park what is left. *)
Definition resume (p : Prog unit) (w : Runtime) : Runtime :=
  let '(s', rest) := run_sync p (state w) in
  match rest with
  | Await c _ =>
      mkRuntime s' (inflight w ++ [rest]) (calls w ++ [c]) (uncaught w)
  | Throw e =>
      mkRuntime s' (inflight w) (calls w) (uncaught w ++ [e])
  | _ =>
      mkRuntime s' (inflight w) (calls w) (uncaught w)
  end.

Fixpoint remove_nth {X : Type} (i : nat) (l : list X) : list X :=
  match l, i with
  | [], _ => []
  | _ :: t, O => t
  | h :: t, S j => h :: remove_nth j t
  end.

(** The environment settles what the [i]-th handler in flight waits
    for, answering its call with [env]. *)
Definition settle_at (i : nat) (env : forall c, Reply c) (w : Runtime)
  : Runtime :=
  match nth_error (inflight w) i with
  | Some (Await c k) =>
      resume (k (env c))
        (mkRuntime (state w) (remove_nth i (inflight w)) (calls w) (uncaught w))
  | _ => w
  end.

(** A state update made outside the handlers (an [onChange], say). *)
Definition update (f : St -> St) (w : Runtime) : Runtime :=
  mkRuntime (f (state w)) (inflight w) (calls w) (uncaught w).

(** A handler all of whose actions satisfy [PA], all of whose calls
    satisfy [PC], and which ends by returning, whatever the replies. *)
Inductive Obeys {A : Type} (PA : Act -> Prop) (PC : Call -> Prop)
  : Prog A -> Prop :=
| Obeys_Ret (a : A) : Obeys PA PC (Ret a)
| Obeys_Do (a : Act) (k : Prog A) :
    PA a -> Obeys PA PC k -> Obeys PA PC (Do a k)
| Obeys_Await (c : Call) (k : Reply c -> Prog A) :
    PC c -> (forall r, Obeys PA PC (k r)) -> Obeys PA PC (Await c k).

(** A runtime whose handlers in flight all obey, whose calls so far
    all satisfy [PC], and in which no exception went uncaught. *)
Definition Sound (PA : Act -> Prop) (PC : Call -> Prop) (w : Runtime)
  : Prop :=
  Forall (Obeys PA PC) (inflight w)
  /\ Forall PC (calls w)
  /\ uncaught w = [].

End Handlers.

Arguments Prog : clear implicits.
Arguments Ret {Act Call Reply A} a.
Arguments Throw {Act Call Reply A} e.
Arguments Do {Act Call Reply A} a k.
Arguments Await {Act Call Reply A} c k.
Arguments Obs : clear implicits.
Arguments Did {Act Call} a.
Arguments Called {Act Call} c.
Arguments Returned {A} a.
Arguments Uncaught {A} e.
Arguments Runtime : clear implicits.
Arguments mkRuntime {Act Call Reply St} state inflight calls uncaught.

Declare Scope prog_scope.
Delimit Scope prog_scope with prog.
Notation "x <- p ;; q" := (bind p (fun x => q))
  (at level 61, p at next level, right associativity) : prog_scope.
Notation "p ;; q" := (bind p (fun _ => q))
  (at level 61, right associativity) : prog_scope.

(** How a block of statements ends: it falls through to the next
    statement with the values it computed, or it executed [return]. *)
Inductive Flow (A : Type) : Type :=
| Next (a : A)
| Return.
Arguments Next {A} a.
Arguments Return {A}.

(* ================================================================== *)
(** * The inference client (the [ollama] package), as the chat uses it *)
(* ================================================================== *)

Module Ollama.

Record Message : Type := mkMessage {
  role : string;
  content : string;
  images : option (list string)
}.

Record ChatRequest : Type := mkChatRequest {
  model : string;
  messages : list Message
}.

(** The response object; [message] may be missing in a malformed one. *)
Record ChatResponse : Type := mkChatResponse {
  message : option Message
}.

End Ollama.

(* ================================================================== *)
(** * [src/components/Chat.tsx] *)
(* ================================================================== *)

Module Chat.

Inductive Role : Type := user | assistant.

(** [interface Message].  [images] is optional; an entry of the list is
    what [result.split(",")[1]] gave, a string or [undefined]. *)
Record Message : Type := mkMessage {
  role : Role;
  content : string;
  images : option (list (option string))
}.

(** The part of a DOM [File] the component reads. *)
Record File : Type := mkFile {
  name : string;
  type : string
}.

(** The four [useState] cells of the component. *)
Record State : Type := mkState {
  messages : list Message;
  input : string;
  isLoading : bool;
  selectedFile : option File
}.

(** The initial values given to [useState]. *)
Definition initial : State := mkState [] "" false None.

Inductive Act : Type :=
| PreventDefault
| SetMessages (f : list Message -> list Message)
| SetInput (v : string)
| SetIsLoading (v : bool)
| SetSelectedFile (v : option File)
| ConsoleError (label : string) (error : Thrown).

(** How a [FileReader] ends: [onload] with its [result], or [onerror]. *)
Inductive ReaderOutcome : Type :=
| Loaded (result : string)
| Failed.

Inductive Call : Type :=
| ReadAsDataURL (file : File)
| ReadAsText (file : File)
| OllamaChat (request : Ollama.ChatRequest).

Definition Reply (c : Call) : Type :=
  match c with
  | ReadAsDataURL _ => ReaderOutcome
  | ReadAsText _ => ReaderOutcome
  | OllamaChat _ => Settled (option Ollama.ChatResponse)
  end.

Definition Handler : Type -> Type := Prog Act Call Reply.

Definition perform (a : Act) (s : State) : State :=
  match a with
  | PreventDefault => s
  | SetMessages f =>
      mkState (f (messages s)) (input s) (isLoading s) (selectedFile s)
  | SetInput v => mkState (messages s) v (isLoading s) (selectedFile s)
  | SetIsLoading v => mkState (messages s) (input s) v (selectedFile s)
  | SetSelectedFile v => mkState (messages s) (input s) (isLoading s) v
  | ConsoleError _ _ => s
  end.

Local Open Scope prog_scope.

(** [new Promise((resolve, reject) => { ... reader.readAsDataURL(file) })]
    with [onload] resolving to [reader.result.split(",")[1]] and
    [onerror] rejecting with the event. *)
Definition dataURLPromise (file : File) : Handler (option string) :=
  Await (ReadAsDataURL file) (fun o : ReaderOutcome =>
    match o with
    | Loaded result => Ret (nth_error (Js.split "," result) 1)
    | Failed => Throw OtherValue
    end).

(** The same around [reader.readAsText(file)], resolving to the whole
    [reader.result]. *)
Definition textPromise (file : File) : Handler string :=
  Await (ReadAsText file) (fun o : ReaderOutcome =>
    match o with
    | Loaded result => Ret result
    | Failed => Throw OtherValue
    end).

(** [ollama.chat({ model, messages: [{ role: "user", content,
    ...(imageBase64 && { images: [imageBase64] }) }] })] *)
Definition chatRequest (content : string) (imageBase64 : option string)
  : Ollama.ChatRequest :=
  Ollama.mkChatRequest "llama3.2-vision:11b"
    [Ollama.mkMessage "user" content
       (match imageBase64 with
        | Some b => if Js.truthy b then Some [b] else None
        | None => None
        end)].

(** [handleSubmit], with the [input] and [selectedFile] of the render
    the form was submitted from. *)
Definition handleSubmit (input : string) (selectedFile : option File)
  : Handler unit :=
  act PreventDefault ;;
  if negb (Js.truthy (Js.trim input))
     && negb (match selectedFile with Some _ => true | None => false end)
  then Ret tt
  else
    let userMessage := mkMessage user input None in
    flow <-
      match selectedFile with
      | Some file =>
          if Js.startsWith (type file) "image/" then
            try_catch
              (imageBase64 <- dataURLPromise file ;;
               Ret (Next (mkMessage (role userMessage) (content userMessage)
                            (Some [imageBase64]),
                          imageBase64)))
              (fun error =>
                 act (ConsoleError "Error processing image:" error) ;;
                 act (SetMessages (fun prev =>
                   prev ++ [mkMessage assistant
                     "Sorry, there was an error processing your image. Please try again."
                     None])) ;;
                 act (SetSelectedFile None) ;;
                 Ret Return)
          else
            try_catch
              (hiddenContent <- textPromise file ;;
               Ret (Next (mkMessage (role userMessage)
                            (content userMessage ++ Js.LF ++ Js.LF
                             ++ "[Hidden File Content]:" ++ Js.LF
                             ++ hiddenContent)
                            (images userMessage),
                          None)))
              (fun error =>
                 act (ConsoleError "Error reading file content:" error) ;;
                 act (SetMessages (fun prev =>
                   prev ++ [mkMessage assistant
                     "Sorry, there was an error processing your file. Please try again."
                     None])) ;;
                 act (SetSelectedFile None) ;;
                 Ret Return)
      | None => Ret (Next (userMessage, None))
      end ;;
    match flow with
    | Return => Ret tt
    | Next (userMessage, imageBase64) =>
        act (SetMessages (fun prev => prev ++ [userMessage])) ;;
        act (SetInput "") ;;
        act (SetSelectedFile None) ;;
        act (SetIsLoading true) ;;
        finally
          (try_catch
             (response <-
                Await (OllamaChat
                         (chatRequest (content userMessage) imageBase64))
                      settle ;;
              match response with
              | Some (Ollama.mkChatResponse (Some m)) =>
                  act (SetMessages (fun prev =>
                    prev ++ [mkMessage assistant (Ollama.content m) None]))
              | _ => Throw (ErrorObject "Invalid response from Ollama")
              end)
             (fun error =>
                act (ConsoleError "Ollama API Error:" error) ;;
                let errorMessage :=
                  "Sorry, I encountered an error processing your request." in
                let errorMessage :=
                  match error with
                  | ErrorObject message =>
                      if Js.includes message "Failed to fetch"
                         || Js.includes message "NetworkError"
                      then "Unable to connect to Ollama. Please make sure Ollama is running and try again."
                      else errorMessage
                  | OtherValue => errorMessage
                  end in
                act (SetMessages (fun prev =>
                  prev ++ [mkMessage assistant errorMessage None]))))
          (act (SetIsLoading false))
    end.

(** What the rendered tree derives from [isLoading]: the trailing
    placeholder [{isLoading && (...<Loader2/>...)}] and the submit
    button's [disabled={isLoading}]. *)
Definition loadingIndicator (s : State) : bool := isLoading s.
Definition submitDisabled (s : State) : bool := isLoading s.

(** ** The mounted component as a machine *)

Definition Session : Type := Runtime Act Call Reply State.

(** A freshly mounted [Chat]. *)
Definition mount : Session := mkRuntime initial [] [] [].

Inductive Event : Type :=
| ChangeInput (value : string)
| ChangeFile (file : option File)
| Submit
| Settle (i : nat) (env : forall c, Reply c).

Definition step (w : Session) (ev : Event) : Session :=
  match ev with
  | ChangeInput value => update (perform (SetInput value)) w
  | ChangeFile file => update (perform (SetSelectedFile file)) w
  | Submit =>
      if submitDisabled (state w) then w
      else resume perform
             (handleSubmit (input (state w)) (selectedFile (state w))) w
  | Settle i env => settle_at perform i env w
  end.

Definition steps (evs : list Event) (w : Session) : Session :=
  fold_left step evs w.

(** One send on its own: the handler run from the state [s] to its
    end, [env] settling the file read and the inference call. *)
Definition send (env : forall c, Reply c) (s : State)
  : State * list (Obs Act Call) * Result unit :=
  exec perform env (handleSubmit (input s) (selectedFile s)) s.

End Chat.

(* ================================================================== *)
(** * [src/App.tsx]: the [AuthForm] component *)
(* ================================================================== *)

Module AuthForm.

(** [import.meta.env]: each variable is a string, or [undefined] when
    the build did not define it. *)
Record ImportMetaEnv : Type := mkEnv {
  VITE_AUTH_USERNAME : option string;
  VITE_AUTH_PASSWORD : option string
}.

(** The three [useState] cells of the component. *)
Record State : Type := mkState {
  username : string;
  password : string;
  loading : bool
}.

Definition initial : State := mkState "" "" false.

Inductive Act : Type :=
| PreventDefault
| SetLoading (v : bool)
| OnLogin (value : bool)
| ConsoleError (label : string) (error : Thrown)
| Alert (text : string).

(** [new Promise(resolve => setTimeout(resolve, ms))], which can only
    be fulfilled, and [formControls.start(shakeAnimation)]. *)
Inductive Call : Type :=
| SetTimeout (ms : nat)
| FormControlsStart.

Definition Reply (c : Call) : Type :=
  match c with
  | SetTimeout _ => unit
  | FormControlsStart => Settled unit
  end.

Definition Handler : Type -> Type := Prog Act Call Reply.

Local Open Scope prog_scope.

(** [handleAuth], with the [username] and [password] of the render the
    form was submitted from. *)
Definition handleAuth (env : ImportMetaEnv) (username password : string)
  : Handler unit :=
  act PreventDefault ;;
  act (SetLoading true) ;;
  finally
    (try_catch
       (Await (SetTimeout 500) (fun _ : unit => Ret tt) ;;
        if Js.strict_eq username (VITE_AUTH_USERNAME env)
           && Js.strict_eq password (VITE_AUTH_PASSWORD env)
        then act (OnLogin true)
        else (Await FormControlsStart settle ;;
              Throw (ErrorObject "Invalid credentials")))
       (fun error =>
          act (ConsoleError "Error:" error) ;;
          act (Alert "Invalid credentials")))
    (act (SetLoading false)).

(** The submit button's [disabled={loading}], and the [required]
    attribute of the two inputs: a form with an empty required field
    is not submitted. *)
Definition submitBlocked (s : State) : bool :=
  loading s || (username s =? "") || (password s =? "").

End AuthForm.

(* ================================================================== *)
(** * [src/App.tsx]: the [App] shell *)
(* ================================================================== *)

Module App.

(** The component [App] has mounted, with that component's state. *)
Inductive Child : Type :=
| AuthFormMounted (form : AuthForm.State)
| ChatMounted (chat : Chat.Session).

(** [isAuthenticated] is the one [useState] cell of [App]; [alerts] are
    the texts [window.alert] has shown. *)
Record State : Type := mkState {
  isAuthenticated : bool;
  child : Child;
  alerts : list string
}.

Definition initial : State :=
  mkState false (AuthFormMounted AuthForm.initial) [].

Definition setIsAuthenticated (value : bool) (s : State) : State :=
  mkState value (child s) (alerts s).

(** What the actions of an [AuthForm] handler do: [onLogin] is
    [setIsAuthenticated], [setLoading] sets the cell of the mounted
    form (and has no target once the form is unmounted). *)
Definition perform (a : AuthForm.Act) (s : State) : State :=
  match a with
  | AuthForm.PreventDefault => s
  | AuthForm.SetLoading v =>
      match child s with
      | AuthFormMounted form =>
          mkState (isAuthenticated s)
            (AuthFormMounted
               (AuthForm.mkState (AuthForm.username form)
                  (AuthForm.password form) v))
            (alerts s)
      | ChatMounted _ => s
      end
  | AuthForm.OnLogin value => setIsAuthenticated value s
  | AuthForm.ConsoleError _ _ => s
  | AuthForm.Alert text => mkState (isAuthenticated s) (child s) (alerts s ++ [text])
  end.

(** The whole page: the state above and the [AuthForm] handlers in
    flight.  (The handlers of a chat are in its session; once the chat
    is unmounted they have nothing of the page left to change.) *)
Definition Machine : Type :=
  Runtime AuthForm.Act AuthForm.Call AuthForm.Reply State.

Definition start : Machine := mkRuntime initial [] [] [].

(** A handler whose form has been unmounted: the state setters of
    that form do nothing any more; [onLogin], the alert and the console
    are as before. *)
Fixpoint orphan {A : Type} (p : AuthForm.Handler A) : AuthForm.Handler A :=
  match p with
  | Ret a => Ret a
  | Throw e => Throw e
  | Do (AuthForm.SetLoading _) k => orphan k
  | Do a k => Do a (orphan k)
  | Await c k => Await c (fun r => orphan (k r))
  end.

(** [App] returns [!isAuthenticated ? <AuthForm .../> : <Chat .../>]
    inside [<AnimatePresence mode="wait">], each view in a
    [motion.div] with an [exit] animation.  A change of the flag
    therefore does not swap the views: the mounted view stays mounted,
    with its state, and usable, until its exit animation has completed;
    only then is the view the flag selects mounted, from its initial
    state.  When the exit of the form completes, its handlers in flight
    are orphaned.  A view the flag selects (again) is not exiting. *)
Definition exitComplete (m : Machine) : Machine :=
  let s := state m in
  match isAuthenticated s, child s with
  | false, AuthFormMounted _ => m
  | true, ChatMounted _ => m
  | false, ChatMounted _ =>
      mkRuntime (mkState false (AuthFormMounted AuthForm.initial) (alerts s))
        (inflight m) (calls m) (uncaught m)
  | true, AuthFormMounted _ =>
      mkRuntime (mkState true (ChatMounted Chat.mount) (alerts s))
        (map orphan (inflight m)) (calls m) (uncaught m)
  end.

Inductive Event : Type :=
| ChangeUsername (value : string)
| ChangePassword (value : string)
| SubmitAuth
| SettleAuth (i : nat) (env : forall c, AuthForm.Reply c)
| ChatEvent (ev : Chat.Event)
| ClickLogout
| ExitComplete.

(** A state change of the mounted form, or of the mounted chat. *)
Definition onForm (f : AuthForm.State -> AuthForm.State) (s : State) : State :=
  match child s with
  | AuthFormMounted form =>
      mkState (isAuthenticated s) (AuthFormMounted (f form)) (alerts s)
  | ChatMounted _ => s
  end.

Definition onChat (f : Chat.Session -> Chat.Session) (s : State) : State :=
  match child s with
  | ChatMounted chat =>
      mkState (isAuthenticated s) (ChatMounted (f chat)) (alerts s)
  | AuthFormMounted _ => s
  end.

Section Configured.

Variable env : AuthForm.ImportMetaEnv.

(** The events of the page.  Those of a view are accepted while that
    view is mounted, its exit included; a handler in flight settles
    whatever is mounted; [ExitComplete] is the end of the exit
    animation of the mounted view. *)
Definition step (m : Machine) (ev : Event) : Machine :=
  match ev with
  | ChangeUsername value =>
      update
        (onForm (fun form =>
           AuthForm.mkState value (AuthForm.password form)
             (AuthForm.loading form))) m
  | ChangePassword value =>
      update
        (onForm (fun form =>
           AuthForm.mkState (AuthForm.username form) value
             (AuthForm.loading form))) m
  | SubmitAuth =>
      match child (state m) with
      | AuthFormMounted form =>
          if AuthForm.submitBlocked form then m
          else resume perform
                 (AuthForm.handleAuth env (AuthForm.username form)
                    (AuthForm.password form)) m
      | ChatMounted _ => m
      end
  | SettleAuth i reply => settle_at perform i reply m
  | ChatEvent ev => update (onChat (fun chat => Chat.step chat ev)) m
  | ClickLogout =>
      match child (state m) with
      | ChatMounted _ => update (setIsAuthenticated false) m
      | AuthFormMounted _ => m
      end
  | ExitComplete => exitComplete m
  end.

Definition steps (evs : list Event) (m : Machine) : Machine :=
  fold_left step evs m.

(** One login attempt on its own, run to its end. *)
Definition attemptLogin (reply : forall c, AuthForm.Reply c)
  (username password : string) (s : State)
  : State * list (Obs AuthForm.Act AuthForm.Call) * Result unit :=
  exec perform reply (AuthForm.handleAuth env username password) s.

End Configured.

(** The transcript on the page: that of the mounted chat, none when no
    chat is mounted. *)
Definition transcript (s : State) : list Chat.Message :=
  match child s with
  | ChatMounted chat => Chat.messages (state chat)
  | AuthFormMounted _ => []
  end.

Definition showsChat (s : State) : bool :=
  match child s with
  | ChatMounted _ => true
  | AuthFormMounted _ => false
  end.

End App.

(* ================================================================== *)
(** * Vocabulary of the properties *)
(* ================================================================== *)

Module ChatSpec.
Import Chat.

(** An action that leaves the transcript alone or appends to it. *)
Definition appends (a : Act) : Prop :=
  match a with
  | SetMessages f => exists l, forall prev, f prev = prev ++ l
  | _ => True
  end.

(** [s'] has the transcript of [s], then possibly more entries. *)
Definition extends (s s' : State) : Prop :=
  exists l, messages s' = messages s ++ l.

(** A call that is no inference request, or a request to the one
    model with exactly one message, of role user. *)
Definition singleTurn (c : Call) : Prop :=
  match c with
  | OllamaChat request =>
      Ollama.model request = "llama3.2-vision:11b"
      /\ exists content images,
           Ollama.messages request = [Ollama.mkMessage "user" content images]
  | _ => True
  end.

(** The outcome of the read [handleSubmit] starts for [file]. *)
Definition readOutcome (env : forall c, Reply c) (file : File)
  : ReaderOutcome :=
  if Js.startsWith (type file) "image/"
  then env (ReadAsDataURL file)
  else env (ReadAsText file).

(** What [readAsDataURL] produces for a file of media type [mime] whose
    bytes encode to [payload]. *)
Definition dataURL (mime payload : string) : string :=
  "data:" ++ mime ++ ";base64," ++ payload.

Definition noComma (s : string) : bool :=
  forallb (fun c => negb (Ascii.eqb c ",")) (list_ascii_of_string s).

Definition connectivityText : string :=
  "Unable to connect to Ollama. Please make sure Ollama is running and try again.".

Definition genericText : string :=
  "Sorry, I encountered an error processing your request.".

Definition isInference (c : Call) : bool :=
  match c with
  | OllamaChat _ => true
  | _ => false
  end.

Definition inferenceCalls (t : list (Obs Act Call)) : list Ollama.ChatRequest :=
  flat_map (fun o => match o with
                     | Called (OllamaChat request) => [request]
                     | _ => []
                     end) t.

(** How often a run sets the loading flag to [v]. *)
Definition loadingSets (v : bool) (t : list (Obs Act Call)) : nat :=
  length (filter (fun o => match o with
                           | Did (SetIsLoading v') => Bool.eqb v v'
                           | _ => false
                           end) t).

(** An event other than the selection of a file. *)
Definition textOnly (ev : Event) : bool :=
  match ev with
  | ChangeFile (Some _) => false
  | _ => true
  end.

(** A handler in flight that waits for the inference call and, however
    the call settles, runs to its end at once, clearing the loading
    flag and leaving the pending attachment alone. *)
Definition lastLeg (h : Handler unit) : Prop :=
  match h with
  | Await c k =>
      isInference c = true
      /\ forall (r : Reply c) (s : State),
           exists s',
             run_sync perform (k r) s = (s', Ret tt)
             /\ isLoading s' = false
             /\ selectedFile s' = selectedFile s
  | _ => False
  end.

(** The chat with no file pending: idle with the flag clear, or one
    send in flight, in its last leg, with the flag set. *)
Definition OneSend (w : Session) : Prop :=
  selectedFile (state w) = None
  /\ ((isLoading (state w) = false /\ inflight w = [])
      \/ (isLoading (state w) = true
          /\ exists h, inflight w = [h] /\ lastLeg h)).

(** The engines whose [fetch] the inference client may run on, and
    the [TypeError] each rejects with when the host cannot be
    reached. *)
Inductive Engine : Type := Chromium | Gecko | WebKit | Undici.

Definition failedFetch (engine : Engine) : Thrown :=
  ErrorObject
    (match engine with
     | Chromium => "Failed to fetch"
     | Gecko => "NetworkError when attempting to fetch resource."
     | WebKit => "Load failed"
     | Undici => "fetch failed"
     end).

(** Three environments to run the chat in: everything works; the
    inference service cannot be reached; the selected file cannot be
    read. *)
Definition serviceUp (c : Call) : Reply c :=
  match c with
  | ReadAsDataURL _ => Loaded "data:image/png;base64,iVBORw0KGgo="
  | ReadAsText _ => Loaded "alpha,beta"
  | OllamaChat _ =>
      Fulfilled (Some (Ollama.mkChatResponse
                         (Some (Ollama.mkMessage "assistant" "Hi there" None))))
  end.

Definition serviceDown (c : Call) : Reply c :=
  match c with
  | ReadAsDataURL _ => Loaded "data:image/png;base64,iVBORw0KGgo="
  | ReadAsText _ => Loaded "alpha,beta"
  | OllamaChat _ => Rejected (ErrorObject "Failed to fetch")
  end.

Definition unreadable (c : Call) : Reply c :=
  match c with
  | ReadAsDataURL _ => Failed
  | ReadAsText _ => Failed
  | OllamaChat _ =>
      Fulfilled (Some (Ollama.mkChatResponse
                         (Some (Ollama.mkMessage "assistant" "Hi there" None))))
  end.

(** The service cannot be reached, on the given engine. *)
Definition unreachableOn (engine : Engine) (c : Call) : Reply c :=
  match c with
  | ReadAsDataURL _ => Loaded "data:image/png;base64,iVBORw0KGgo="
  | ReadAsText _ => Loaded "alpha,beta"
  | OllamaChat _ => Rejected (failedFetch engine)
  end.

(** The selected image file is empty: its data URL has no payload. *)
Definition emptyImage (c : Call) : Reply c :=
  match c with
  | ReadAsDataURL _ => Loaded "data:image/png;base64,"
  | ReadAsText _ => Loaded ""
  | OllamaChat _ =>
      Fulfilled (Some (Ollama.mkChatResponse
                         (Some (Ollama.mkMessage "assistant" "Hi there" None))))
  end.

Definition photo : File := mkFile "photo.png" "image/png".
Definition notes : File := mkFile "notes.txt" "text/plain".

End ChatSpec.

Module AppSpec.
Import App.

Definition credentialsMatch (env : AuthForm.ImportMetaEnv)
  (u p : string) : Prop :=
  AuthForm.VITE_AUTH_USERNAME env = Some u
  /\ AuthForm.VITE_AUTH_PASSWORD env = Some p.

(** The login attempt with the pair [(u, p)], as it sits in flight
    during the simulated network delay. *)
Definition waiting (env : AuthForm.ImportMetaEnv) (u p : string)
  : AuthForm.Handler unit :=
  snd (run_sync perform (AuthForm.handleAuth env u p) initial).

(** An action other than a call of [onLogin]. *)
Definition noLogin (a : AuthForm.Act) : Prop :=
  match a with
  | AuthForm.OnLogin _ => False
  | _ => True
  end.

(** The handler of the attempt submitted with the pair [(u, p)], in
    its delay: as [handleAuth] left it in flight, or orphaned since,
    once for each form unmounted in the meantime. *)
Inductive Submitted (env : AuthForm.ImportMetaEnv) (u p : string)
  : AuthForm.Handler unit -> Prop :=
| Submitted_waiting : Submitted env u p (waiting env u p)
| Submitted_orphan (h : AuthForm.Handler unit) :
    Submitted env u p h -> Submitted env u p (orphan h).

(** A handler that does not call [onLogin] any more. *)
Definition quiet (h : AuthForm.Handler unit) : Prop :=
  Obeys noLogin (fun _ => True) h.

(** What is in flight on a reachable page: attempts in their delay,
    submitted with both fields filled in, and quiet handlers. *)
Definition InFlight (env : AuthForm.ImportMetaEnv) (m : Machine) : Prop :=
  Forall (fun h =>
            (exists u p, Submitted env u p h /\ u <> "" /\ p <> "")
            \/ quiet h)
    (inflight m).

(** [s'] has the flag and the alerts of [s]. *)
Definition sameFlag (s s' : State) : Prop :=
  isAuthenticated s' = isAuthenticated s /\ alerts s' = alerts s.


(** The view the flag selects, freshly mounted. *)
Definition fresh (flag : bool) : Child :=
  if flag then ChatMounted Chat.mount else AuthFormMounted AuthForm.initial.

(** A configuration and an environment to run the page in. *)
Definition configured : AuthForm.ImportMetaEnv :=
  AuthForm.mkEnv (Some "admin") (Some "hunter2").

Definition animates (c : AuthForm.Call) : AuthForm.Reply c :=
  match c with
  | AuthForm.SetTimeout _ => tt
  | AuthForm.FormControlsStart => Fulfilled tt
  end.

End AppSpec.

(* ================================================================== *)
(** * What the components render *)
(* ================================================================== *)

(** The tree [Chat] returns, as far as it depends on the state: the
    list under [AnimatePresence] and the caption under the form. *)
Module ChatView.
Import Chat.

(** The flex class of a message row. *)
Inductive Side : Type := justify_end | justify_start.

Inductive Element : Type :=
| Bubble (side : Side) (srcs : list string) (markdown : string)
| Loader.

(** [${image}] in a template literal: [undefined] prints its name. *)
Definition interpolate (image : option string) : string :=
  match image with
  | Some s => s
  | None => "undefined"
  end.

(** One row of [messages.map(...)]: the images, when [message.images]
    is there, each with [src={`data:image/png;base64,${image}`}], then
    the content as markdown. *)
Definition renderMessage (message : Message) : Element :=
  Bubble
    (match role message with
     | user => justify_end
     | assistant => justify_start
     end)
    (match images message with
     | Some l =>
         map (fun image => ("data:image/png;base64," ++ interpolate image)%string) l
     | None => []
     end)
    (content message).

(** The rows, then [{isLoading && (...)}]. *)
Definition transcriptView (s : State) : list Element :=
  map renderMessage (messages s) ++ (if isLoading s then [Loader] else []).

(** [{selectedFile && (<p>Selected file: {selectedFile.name}</p>)}] *)
Definition fileCaption (s : State) : option string :=
  match selectedFile s with
  | Some file => Some ("Selected file: " ++ name file)%string
  | None => None
  end.

End ChatView.

(** The submit button of [AuthForm]. *)
Module AuthFormView.
Import AuthForm.



End AuthFormView.

(* ================================================================== *)
(** * Vocabulary of the further properties *)
(* ================================================================== *)

Module ChatLegs.
Import Chat.

(** A handler in flight that waits for a file read.  When the read
    settles it clears the pending attachment and either ends there,
    leaving input and loading flag alone, or goes on to wait for the
    inference call, with the input cleared and the flag set. *)
Definition readLeg (h : Handler unit) : Prop :=
  match h with
  | Await c k =>
      ChatSpec.isInference c = false
      /\ forall (r : Reply c) (s : State),
           exists s' rest,
             run_sync perform (k r) s = (s', rest)
             /\ selectedFile s' = None
             /\ ((rest = Ret tt
                  /\ isLoading s' = isLoading s
                  /\ input s' = input s)
                 \/ (ChatSpec.lastLeg rest
                     /\ isLoading s' = true
                     /\ input s' = ""))
  | _ => False
  end.

(** Every handler in flight is in one of the two legs, and while the
    loading flag is set the youngest one waits for the inference
    call. *)
Definition Legs (w : Session) : Prop :=
  Forall (fun h => readLeg h \/ ChatSpec.lastLeg h) (inflight w)
  /\ (isLoading (state w) = true ->
      ChatSpec.lastLeg (last (inflight w) (Ret tt))).

Definition isUser (m : Message) : bool :=
  match role m with
  | user => true
  | assistant => false
  end.

(** The texts of the user's entries, in order. *)
Definition userTexts (l : list Message) : list string :=
  map content (filter isUser l).

(** The texts a call sends to the model. *)
Definition requestTexts (c : Call) : list string :=
  match c with
  | OllamaChat request => map Ollama.content (Ollama.messages request)
  | _ => []
  end.

Definition setsMessages (a : Act) : bool :=
  match a with
  | SetMessages _ => true
  | _ => false
  end.

(** A handler that issues, at its next suspension, a request for the
    texts [pending] and for the user entries it appends before, and
    that appends no other user entry. *)
Inductive Paired : list string -> Handler unit -> Prop :=
| Paired_Ret : Paired [] (Ret tt)
| Paired_Set (pending : list string) (f : list Message -> list Message)
    (new : list Message) (k : Handler unit) :
    (forall prev, f prev = prev ++ new) ->
    Paired (pending ++ userTexts new) k ->
    Paired pending (Do (SetMessages f) k)
| Paired_Do (pending : list string) (a : Act) (k : Handler unit) :
    setsMessages a = false ->
    Paired pending k ->
    Paired pending (Do a k)
| Paired_Await (pending : list string) (c : Call)
    (k : Reply c -> Handler unit) :
    requestTexts c = pending ->
    (forall r, Paired [] (k r)) ->
    Paired pending (Await c k).

(** What is left of a paired handler once it is in flight. *)
Definition pairedInFlight (h : Handler unit) : Prop :=
  match h with
  | Await c k => forall r, Paired [] (k r)
  | _ => False
  end.

(** The requests issued so far carry the texts of the user's entries
    of the transcript, one each, in the same order. *)
Definition InStep (w : Session) : Prop :=
  userTexts (messages (state w)) = flat_map requestTexts (calls w)
  /\ Forall pairedInFlight (inflight w).

(** An entry as the transcript holds them: an assistant entry without
    images, a user entry with none or exactly one. *)
Definition wellFormed (m : Message) : Prop :=
  match role m with
  | assistant => images m = None
  | user => images m = None \/ exists image, images m = Some [image]
  end.

Definition appendsWellFormed (a : Act) : Prop :=
  match a with
  | SetMessages f =>
      exists l, (forall prev, f prev = prev ++ l) /\ Forall wellFormed l
  | _ => True
  end.

Definition keepsWellFormed (s s' : State) : Prop :=
  Forall wellFormed (messages s) -> Forall wellFormed (messages s').

End ChatLegs.

Module AppLegs.
Import App.

(** An action that alerts nothing, or the one text. *)
Definition alertsOneText (a : AuthForm.Act) : Prop :=
  match a with
  | AuthForm.Alert text => text = "Invalid credentials"
  | _ => True
  end.

Definition keepsOneText (s s' : State) : Prop :=
  Forall (fun text => text = "Invalid credentials") (alerts s) ->
  Forall (fun text => text = "Invalid credentials") (alerts s').

End AppLegs.

(* ================================================================== *)
(** * Facts about the string primitives *)
(* ================================================================== *)

Example trim_inner_space : Js.trim "  a b  " = "a b".
Proof. reflexivity. Qed.

Example split_keeps_empty_pieces :
  Js.split "," "a,b,,c" = ["a"; "b"; ""; "c"] /\ Js.split "," "" = [""].
Proof. split; reflexivity. Qed.

Example includes_fetch_errors :
  Js.includes "TypeError: Failed to fetch" "Failed to fetch" = true
  /\ Js.includes "NetworkError when attempting to fetch resource." "NetworkError"
     = true
  /\ Js.includes "Invalid response from Ollama" "Failed to fetch" = false.
Proof. repeat split. Qed.

Lemma trimEnd_empty_iff (s : string) :
  Js.trimEnd s = "" <-> Js.whitespace_only s = true.
Proof.
  unfold Js.whitespace_only.
  induction s as [|c r IH]; simpl.
  - split; reflexivity.
  - destruct (Js.is_whitespace c); simpl.
    + destruct (Js.trimEnd r =? "") eqn:E.
      * apply String.eqb_eq in E. split; intros _; [apply IH; exact E | reflexivity].
      * apply String.eqb_neq in E. split; [discriminate|].
        intros H. apply IH in H. contradiction.
    + split; discriminate.
Qed.

Lemma whitespace_only_trimStart (s : string) :
  Js.whitespace_only (Js.trimStart s) = Js.whitespace_only s.
Proof.
  unfold Js.whitespace_only.
  induction s as [|c r IH]; simpl; [reflexivity|].
  destruct (Js.is_whitespace c) eqn:E; simpl.
  - exact IH.
  - rewrite E. reflexivity.
Qed.

(** [input.trim()] is the empty string exactly when [input] consists of
    white space only (the empty input included). *)
Lemma trim_empty_iff (s : string) :
  Js.trim s = "" <-> Js.whitespace_only s = true.
Proof.
  unfold Js.trim. rewrite trimEnd_empty_iff.
  rewrite whitespace_only_trimStart. reflexivity.
Qed.

Lemma truthy_trim_false (s : string) :
  Js.truthy (Js.trim s) = false <-> Js.whitespace_only s = true.
Proof.
  rewrite <- trim_empty_iff. unfold Js.truthy.
  destruct (Js.trim s =? "") eqn:E; simpl.
  - apply String.eqb_eq in E. split; auto.
  - apply String.eqb_neq in E. split; [discriminate | contradiction].
Qed.

Lemma truthy_trim_true (s : string) :
  Js.truthy (Js.trim s) = true <-> Js.trim s <> "".
Proof.
  unfold Js.truthy.
  destruct (Js.trim s =? "") eqn:E; simpl.
  - apply String.eqb_eq in E. split; [discriminate | contradiction].
  - apply String.eqb_neq in E. split; auto.
Qed.

Lemma split_nonempty (sep : ascii) (s : string) : Js.split sep s <> [].
Proof.
  induction s as [|c r IH]; simpl; [discriminate|].
  destruct (Ascii.eqb c sep); [discriminate|].
  destruct (Js.split sep r); discriminate.
Qed.

Lemma split_noComma (s : string) :
  ChatSpec.noComma s = true -> Js.split "," s = [s].
Proof.
  unfold ChatSpec.noComma.
  induction s as [|c r IH]; simpl; [reflexivity|].
  intros H. apply andb_true_iff in H. destruct H as [Hc Hr].
  destruct (Ascii.eqb c ","); [discriminate|].
  rewrite (IH Hr). reflexivity.
Qed.

Lemma split_app_noComma (a b : string) :
  ChatSpec.noComma a = true ->
  Js.split "," (a ++ "," ++ b)%string = a :: Js.split "," b.
Proof.
  unfold ChatSpec.noComma.
  induction a as [|c r IH]; simpl; [reflexivity|].
  intros H. apply andb_true_iff in H. destruct H as [Hc Hr].
  destruct (Ascii.eqb c ","); [discriminate|].
  simpl in IH. rewrite (IH Hr). reflexivity.
Qed.

Lemma noComma_app (a b : string) :
  ChatSpec.noComma (a ++ b)%string = ChatSpec.noComma a && ChatSpec.noComma b.
Proof.
  unfold ChatSpec.noComma.
  induction a as [|c r IH]; simpl; [reflexivity|].
  rewrite IH. apply andb_assoc.
Qed.

Lemma string_app_assoc (a b c : string) :
  ((a ++ b) ++ c = a ++ b ++ c)%string.
Proof.
  induction a as [|x r IH]; simpl; [reflexivity|]. rewrite IH. reflexivity.
Qed.

(** The second piece of a data URL split at its commas is the payload. *)
Lemma split_dataURL (mime payload : string) :
  ChatSpec.noComma mime = true -> ChatSpec.noComma payload = true ->
  nth_error (Js.split "," (ChatSpec.dataURL mime payload)) 1 = Some payload.
Proof.
  intros Hm Hp. unfold ChatSpec.dataURL.
  replace ("data:" ++ mime ++ ";base64," ++ payload)%string
    with (("data:" ++ mime ++ ";base64") ++ "," ++ payload)%string.
  - rewrite split_app_noComma.
    + rewrite (split_noComma payload Hp). reflexivity.
    + rewrite noComma_app, noComma_app, Hm. reflexivity.
  - rewrite !string_app_assoc. reflexivity.
Qed.

(* ================================================================== *)
(** * Facts about handlers in flight *)
(* ================================================================== *)

Section RuntimeFacts.

Context {Act Call : Type} {Reply : Call -> Type} {St : Type}.
Variable perform : Act -> St -> St.
Variable PA : Act -> Prop.
Variable PC : Call -> Prop.

(** [R] relates a state to the states that obeying actions lead to. *)
Variable R : St -> St -> Prop.
Hypothesis R_refl : forall s, R s s.
Hypothesis R_trans : forall a b c, R a b -> R b c -> R a c.
Hypothesis R_perform : forall a s, PA a -> R s (perform a s).

Lemma Obeys_Await_inv (c : Call) (k : Reply c -> Prog Act Call Reply unit) :
  Obeys PA PC (Await c k) -> PC c /\ forall r, Obeys PA PC (k r).
Proof.
  intros H.
  refine (match H in Obeys _ _ p
                return match p with
                       | Await c' k' => PC c' /\ forall r, Obeys PA PC (k' r)
                       | _ => True
                       end
          with
          | Obeys_Ret _ _ _ => I
          | Obeys_Do _ _ _ _ _ _ => I
          | Obeys_Await _ _ _ _ Hc Hk => conj Hc Hk
          end).
Qed.

Lemma run_sync_obeys (p : Prog Act Call Reply unit) :
  Obeys PA PC p ->
  forall s, R s (fst (run_sync perform p s))
            /\ Obeys PA PC (snd (run_sync perform p s)).
Proof.
  induction 1 as [a | a k Ha Hk IH | c k Hc Hk IH]; intros s; simpl.
  - split; [apply R_refl | constructor].
  - destruct (IH (perform a s)) as [H1 H2]. split; [|exact H2].
    eapply R_trans; [apply R_perform; exact Ha | exact H1].
  - split; [apply R_refl | constructor; assumption].
Qed.

Lemma resume_sound (p : Prog Act Call Reply unit) (w : Runtime Act Call Reply St) :
  Obeys PA PC p -> Sound PA PC w ->
  Sound PA PC (resume perform p w) /\ R (state w) (state (resume perform p w)).
Proof.
  intros Hp (Hin & Hcalls & Hunc).
  destruct (run_sync_obeys p Hp (state w)) as [HR Hrest].
  unfold resume. destruct (run_sync perform p (state w)) as [s' rest].
  simpl in HR, Hrest.
  destruct Hrest as [a | a k Ha Hk | c k Hc Hk]; simpl.
  - repeat split; assumption.
  - repeat split; assumption.
  - repeat split; try assumption.
    + apply Forall_app. split; [assumption|].
      constructor; [constructor; assumption | constructor].
    + apply Forall_app. split; [assumption|]. constructor; [assumption | constructor].
Qed.

Lemma Forall_remove_nth {X : Type} (P : X -> Prop) (i : nat) (l : list X) :
  Forall P l -> Forall P (remove_nth i l).
Proof.
  intros H. revert i. induction H as [|x l Hx Hl IH]; intros i.
  - destruct i; constructor.
  - destruct i; simpl; [assumption | constructor; [assumption | apply IH]].
Qed.

Lemma settle_at_sound (i : nat) (env : forall c, Reply c)
  (w : Runtime Act Call Reply St) :
  Sound PA PC w ->
  Sound PA PC (settle_at perform i env w)
  /\ R (state w) (state (settle_at perform i env w)).
Proof.
  intros Hw. pose proof Hw as (Hin & Hcalls & Hunc).
  unfold settle_at.
  destruct (nth_error (inflight w) i) as [h|] eqn:E;
    [|split; [assumption | apply R_refl]].
  assert (Hh : Obeys PA PC h).
  { apply nth_error_In in E. rewrite Forall_forall in Hin. apply Hin, E. }
  destruct h as [a | e | a k | c k]; try (split; [assumption | apply R_refl]).
  apply Obeys_Await_inv in Hh. destruct Hh as [_ Hk].
  apply (resume_sound (k (env c))
           (mkRuntime (state w) (remove_nth i (inflight w)) (calls w) (uncaught w))).
  - apply Hk.
  - repeat split; simpl; try assumption. apply Forall_remove_nth. assumption.
Qed.

Lemma run_sync_no_await (p : Prog Act Call Reply unit) :
  Obeys PA (fun _ => False) p ->
  forall s, snd (run_sync perform p s) = Ret tt.
Proof.
  induction 1 as [[] | a k Ha Hk IH | c k Hc Hk IH]; intros s; simpl.
  - reflexivity.
  - apply IH.
  - contradiction.
Qed.

Lemma resume_state (p : Prog Act Call Reply unit) (w : Runtime Act Call Reply St) :
  state (resume perform p w) = fst (run_sync perform p (state w)).
Proof.
  unfold resume. destruct (run_sync perform p (state w)) as [s' rest].
  destruct rest; reflexivity.
Qed.

Lemma resume_inflight (p : Prog Act Call Reply unit) (w : Runtime Act Call Reply St) :
  inflight (resume perform p w)
  = inflight w ++ match snd (run_sync perform p (state w)) with
                  | Await c k => [Await c k]
                  | _ => []
                  end.
Proof.
  unfold resume. destruct (run_sync perform p (state w)) as [s' rest].
  destruct rest; simpl; try (symmetry; apply app_nil_r); reflexivity.
Qed.

End RuntimeFacts.

(* ================================================================== *)
(** * The chat: what every handler run obeys *)
(* ================================================================== *)

Ltac obeys_step :=
  first
    [ apply Obeys_Ret
    | apply Obeys_Do;
      [ simpl; try exact I; try (eexists; intros; reflexivity) | ]
    | apply Obeys_Await;
      [ simpl; try exact I; try (split; [reflexivity | eauto])
      | let r := fresh "r" in intros r; simpl in r; destruct r; simpl ] ].

(** Whatever the input and the file, [handleSubmit] only appends to the
    transcript, only issues single-turn requests, and catches every
    exception. *)
Lemma handleSubmit_obeys (input : string) (selectedFile : option Chat.File) :
  Obeys ChatSpec.appends ChatSpec.singleTurn
    (Chat.handleSubmit input selectedFile).
Proof.
  unfold Chat.handleSubmit. simpl.
  apply Obeys_Do; [exact I|].
  destruct (negb (Js.truthy (Js.trim input)) &&
            negb match selectedFile with Some _ => true | None => false end);
    [apply Obeys_Ret|].
  destruct selectedFile as [file|]; simpl;
    [destruct (Js.startsWith (Chat.type file) "image/"); simpl|];
    repeat obeys_step;
    destruct x as [[[m|]]|]; simpl; repeat obeys_step.
Qed.

Lemma extends_refl (s : Chat.State) : ChatSpec.extends s s.
Proof. exists []. symmetry. apply app_nil_r. Qed.

Lemma extends_trans (a b c : Chat.State) :
  ChatSpec.extends a b -> ChatSpec.extends b c -> ChatSpec.extends a c.
Proof.
  intros [l1 H1] [l2 H2]. exists (l1 ++ l2).
  rewrite H2, H1. symmetry. apply app_assoc.
Qed.

Lemma extends_perform (a : Chat.Act) (s : Chat.State) :
  ChatSpec.appends a -> ChatSpec.extends s (Chat.perform a s).
Proof.
  destruct a; simpl; intros H;
    try (exists []; simpl; symmetry; apply app_nil_r).
  destruct H as [l Hl]. exists l. simpl. apply Hl.
Qed.

Lemma mount_sound :
  Sound ChatSpec.appends ChatSpec.singleTurn Chat.mount.
Proof. repeat split; constructor. Qed.

Lemma chat_step_sound (w : Chat.Session) (ev : Chat.Event) :
  Sound ChatSpec.appends ChatSpec.singleTurn w ->
  Sound ChatSpec.appends ChatSpec.singleTurn (Chat.step w ev)
  /\ ChatSpec.extends (state w) (state (Chat.step w ev)).
Proof.
  intros Hw. destruct ev as [value | file | | i env]; simpl.
  - split; [exact Hw | exists []; simpl; symmetry; apply app_nil_r].
  - split; [exact Hw | exists []; simpl; symmetry; apply app_nil_r].
  - destruct (Chat.submitDisabled (state w)).
    + split; [exact Hw | apply extends_refl].
    + apply (resume_sound Chat.perform ChatSpec.appends ChatSpec.singleTurn
               ChatSpec.extends extends_refl extends_trans extends_perform).
      * apply handleSubmit_obeys.
      * exact Hw.
  - apply (settle_at_sound Chat.perform ChatSpec.appends ChatSpec.singleTurn
             ChatSpec.extends extends_refl extends_trans extends_perform).
    exact Hw.
Qed.

Lemma chat_steps_sound (evs : list Chat.Event) (w : Chat.Session) :
  Sound ChatSpec.appends ChatSpec.singleTurn w ->
  Sound ChatSpec.appends ChatSpec.singleTurn (Chat.steps evs w)
  /\ ChatSpec.extends (state w) (state (Chat.steps evs w)).
Proof.
  revert w. induction evs as [|ev evs IH]; intros w Hw; simpl.
  - split; [exact Hw | apply extends_refl].
  - destruct (chat_step_sound w ev Hw) as [H1 H2].
    destruct (IH _ H1) as [H3 H4].
    split; [exact H3 | eapply extends_trans; eassumption].
Qed.

Lemma chat_steps_app (evs1 evs2 : list Chat.Event) (w : Chat.Session) :
  Chat.steps (evs1 ++ evs2) w = Chat.steps evs2 (Chat.steps evs1 w).
Proof. unfold Chat.steps. apply fold_left_app. Qed.

(* ================================================================== *)
(** * The chat: one send *)
(* ================================================================== *)

(** C10.  A submission whose input is empty or white space only, with
    no file selected, does nothing: the handler returns at once, no
    message is appended, no call is issued, and the input, the loading
    flag and the pending attachment are as before; the mounted
    component is left exactly as it was. *)
Theorem blank_submit_is_noop (env : forall c, Chat.Reply c) (s : Chat.State) :
  Js.whitespace_only (Chat.input s) = true ->
  Chat.selectedFile s = None ->
  Chat.send env s = (s, [Did Chat.PreventDefault], Returned tt)
  /\ forall w : Chat.Session, state w = s -> Chat.step w Chat.Submit = w.
Proof.
  intros Hws Hfile. apply truthy_trim_false in Hws.
  split.
  - unfold Chat.send, Chat.handleSubmit. rewrite Hfile, Hws. reflexivity.
  - intros w Hw. subst s. simpl.
    destruct (Chat.submitDisabled (state w)); [reflexivity|].
    unfold Chat.handleSubmit. rewrite Hfile, Hws.
    destruct w; reflexivity.
Qed.

Lemma blank_submit_is_noop_witness :
  Chat.send ChatSpec.serviceUp (Chat.mkState [] "  " false None)
  = (Chat.mkState [] "  " false None, [Did Chat.PreventDefault], Returned tt).
Proof.
  apply (blank_submit_is_noop ChatSpec.serviceUp
           (Chat.mkState [] "  " false None)); reflexivity.
Defined.

(** C2, as stated, fails: the input [" "] is not empty and no file is
    selected, yet the submission appends no entry at all. *)
Lemma text_only_nonempty_counterexample :
  let s := Chat.mkState [] " " false None in
  Chat.selectedFile s = None
  /\ Chat.input s <> ""
  /\ Chat.messages (fst (fst (Chat.send ChatSpec.serviceUp s))) = Chat.messages s
  /\ ~ (exists u a,
          Chat.messages (fst (fst (Chat.send ChatSpec.serviceUp s)))
          = Chat.messages s ++ [u; a]).
Proof.
  simpl. repeat split; try reflexivity; try discriminate.
  intros (u & a & H). discriminate H.
Qed.

(** C2, amended.  A text-only submission whose input is not empty
    after trimming white space appends exactly two entries, in this
    order: the user's message, then one assistant entry, which holds
    the reply when the inference call delivered one and a diagnostic
    text otherwise. *)
Theorem text_only_appends_user_then_assistant
  (env : forall c, Chat.Reply c) (s : Chat.State) :
  Chat.selectedFile s = None ->
  Js.trim (Chat.input s) <> "" ->
  exists t a,
    Chat.send env s
    = (Chat.mkState
         (Chat.messages s ++ [Chat.mkMessage Chat.user (Chat.input s) None; a])
         "" false None,
       t, Returned tt)
    /\ Chat.role a = Chat.assistant
    /\ Chat.images a = None
    /\ match env (Chat.OllamaChat (Chat.chatRequest (Chat.input s) None)) with
       | Fulfilled (Some (Ollama.mkChatResponse (Some m))) =>
           Chat.content a = Ollama.content m
       | _ =>
           Chat.content a = ChatSpec.genericText
           \/ Chat.content a = ChatSpec.connectivityText
       end.
Proof.
  intros Hfile Htrim. apply truthy_trim_true in Htrim.
  destruct s as [msgs inp ld file]. simpl in *. subst file.
  unfold Chat.send, Chat.handleSubmit. simpl Chat.input. simpl Chat.selectedFile.
  rewrite Htrim. simpl.
  destruct (env (Chat.OllamaChat (Chat.chatRequest inp None)))
    as [[[[m|]]|]|[message|]]; simpl.
  - eexists _, _. rewrite <- app_assoc. simpl.
    split; [reflexivity|]. simpl. auto.
  - eexists _, _. rewrite <- app_assoc. simpl.
    split; [reflexivity|]. simpl. auto.
  - eexists _, _. rewrite <- app_assoc. simpl.
    split; [reflexivity|]. simpl. auto.
  - eexists _, _. rewrite <- app_assoc. simpl.
    split; [reflexivity|]. simpl. repeat split.
    unfold ChatSpec.genericText, ChatSpec.connectivityText.
    destruct (Js.includes message "Failed to fetch" || Js.includes message "NetworkError"); auto.
  - eexists _, _. rewrite <- app_assoc. simpl.
    split; [reflexivity|]. simpl. auto.
Qed.

Lemma text_only_appends_user_then_assistant_witness :
  exists t a,
    Chat.send ChatSpec.serviceUp (Chat.mkState [] "Hello" false None)
    = (Chat.mkState [Chat.mkMessage Chat.user "Hello" None; a] "" false None,
       t, Returned tt)
    /\ Chat.content a = "Hi there".
Proof.
  destruct (text_only_appends_user_then_assistant ChatSpec.serviceUp
              (Chat.mkState [] "Hello" false None))
    as (t & a & H1 & _ & _ & H2); [reflexivity | discriminate |].
  exists t, a. split; [exact H1 | exact H2].
Defined.

(** C3.  A submission with a selected file whose read succeeds appends
    a user message built from the file.  For a media type that begins
    with [image/], the message carries exactly one image entry, the
    piece of the reader's result after its first comma (the base64
    payload of a data URL), and its text is the input as typed.  For
    any other media type, the message carries no images and its text is
    the input followed by the marked block with the file's text. *)
Theorem file_ingestion
  (env : forall c, Chat.Reply c) (s : Chat.State) (file : Chat.File)
  (result : string) :
  Chat.selectedFile s = Some file ->
  ChatSpec.readOutcome env file = Chat.Loaded result ->
  exists u a,
    Chat.messages (fst (fst (Chat.send env s))) = Chat.messages s ++ [u; a]
    /\ Chat.role u = Chat.user
    /\ (Js.startsWith (Chat.type file) "image/" = true ->
        Chat.images u = Some [nth_error (Js.split "," result) 1]
        /\ Chat.content u = Chat.input s
        /\ forall payload,
             ChatSpec.noComma (Chat.type file) = true ->
             ChatSpec.noComma payload = true ->
             result = ChatSpec.dataURL (Chat.type file) payload ->
             Chat.images u = Some [Some payload])
    /\ (Js.startsWith (Chat.type file) "image/" = false ->
        Chat.images u = None
        /\ Chat.content u
           = (Chat.input s ++ Js.LF ++ Js.LF ++ "[Hidden File Content]:"
              ++ Js.LF ++ result)%string).
Proof.
  intros Hfile Hread.
  destruct s as [msgs inp ld sel]. simpl in Hfile. subst sel.
  unfold ChatSpec.readOutcome in Hread.
  unfold Chat.send, Chat.handleSubmit. simpl Chat.input. simpl Chat.selectedFile.
  rewrite andb_false_r.
  destruct (Js.startsWith (Chat.type file) "image/") eqn:Himg; simpl.
  - rewrite Hread. simpl.
    destruct (env (Chat.OllamaChat _)) as [[[[m|]]|]|[message|]]; simpl;
      eexists _, _; rewrite <- app_assoc; simpl;
      (split; [reflexivity|]); simpl;
      (split; [reflexivity|]);
      (split; [intros _ | discriminate]);
      (split; [reflexivity|]); (split; [reflexivity|]);
      intros payload Hm Hp ->;
      exact (f_equal (fun x => Some [x]) (split_dataURL _ _ Hm Hp)).
  - rewrite Hread. simpl.
    destruct (env (Chat.OllamaChat _)) as [[[[m|]]|]|[message|]]; simpl;
      eexists _, _; rewrite <- app_assoc; simpl;
      (split; [reflexivity|]); simpl;
      (split; [reflexivity|]);
      (split; [discriminate | intros _]);
      (split; reflexivity).
Qed.

Lemma file_ingestion_witness :
  exists u a,
    Chat.messages
      (fst (fst (Chat.send ChatSpec.serviceUp
                   (Chat.mkState [] "" false (Some ChatSpec.photo)))))
    = [u; a]
    /\ Chat.images u = Some [Some "iVBORw0KGgo="]
    /\ Chat.content u = "".
Proof.
  destruct (file_ingestion ChatSpec.serviceUp
              (Chat.mkState [] "" false (Some ChatSpec.photo))
              ChatSpec.photo "data:image/png;base64,iVBORw0KGgo=")
    as (u & a & H1 & _ & H2 & _); [reflexivity | reflexivity |].
  destruct (H2 eq_refl) as (_ & H3 & H4).
  exists u, a. split; [exact H1|]. split; [|exact H3].
  apply (H4 "iVBORw0KGgo="); reflexivity.
Defined.

(** C4.  After every send the pending attachment is cleared.  When the
    read of the selected file fails, the send is aborted: the handler
    returns normally, the transcript gains exactly one entry, an
    assistant-authored diagnostic, no user message is appended, no
    inference call is issued, and input and loading flag are as
    before. *)
Theorem unreadable_file_aborts_send
  (env : forall c, Chat.Reply c) (s : Chat.State) :
  Chat.selectedFile (fst (fst (Chat.send env s))) = None
  /\ forall file,
       Chat.selectedFile s = Some file ->
       ChatSpec.readOutcome env file = Chat.Failed ->
       exists t d,
         Chat.send env s
         = (Chat.mkState (Chat.messages s ++ [d]) (Chat.input s)
              (Chat.isLoading s) None,
            t, Returned tt)
         /\ Chat.role d = Chat.assistant
         /\ Chat.content d
            = (if Js.startsWith (Chat.type file) "image/"
               then "Sorry, there was an error processing your image. Please try again."
               else "Sorry, there was an error processing your file. Please try again.")
         /\ ChatSpec.inferenceCalls t = [].
Proof.
  destruct s as [msgs inp ld sel].
  unfold Chat.send, Chat.handleSubmit, ChatSpec.readOutcome.
  simpl Chat.input. simpl Chat.selectedFile. simpl Chat.messages.
  simpl Chat.isLoading.
  split.
  - destruct sel as [file|].
    + rewrite andb_false_r.
      destruct (Js.startsWith (Chat.type file) "image/"); simpl;
        [destruct (env (Chat.ReadAsDataURL file))
        |destruct (env (Chat.ReadAsText file))]; simpl; try reflexivity;
        destruct (env (Chat.OllamaChat _)) as [[[[m|]]|]|[message|]];
        reflexivity.
    + destruct (Js.truthy (Js.trim inp)); simpl; [|reflexivity].
      destruct (env (Chat.OllamaChat _)) as [[[[m|]]|]|[message|]];
        reflexivity.
  - intros file Hsel Hread. subst sel. rewrite andb_false_r.
    destruct (Js.startsWith (Chat.type file) "image/"); simpl;
      rewrite Hread; simpl; eexists _, _; repeat split.
Qed.

Lemma unreadable_file_aborts_send_witness :
  exists t d,
    Chat.send ChatSpec.unreadable
      (Chat.mkState [] "see this" false (Some ChatSpec.notes))
    = (Chat.mkState [d] "see this" false None, t, Returned tt)
    /\ Chat.role d = Chat.assistant
    /\ ChatSpec.inferenceCalls t = [].
Proof.
  destruct (proj2 (unreadable_file_aborts_send ChatSpec.unreadable
                     (Chat.mkState [] "see this" false (Some ChatSpec.notes)))
              ChatSpec.notes eq_refl eq_refl)
    as (t & d & H1 & H2 & _ & H3).
  exists t, d. repeat split; assumption.
Defined.

(** The runs of [handleSubmit], by what is selected and how the file
    read ends. *)
Ltac chat_cases env s :=
  destruct s as [msgs inp ld sel];
  unfold Chat.send, Chat.handleSubmit;
  cbn [Chat.input Chat.selectedFile Chat.messages Chat.isLoading];
  destruct sel as [file|];
  [ rewrite ?andb_false_r;
    destruct (Js.startsWith (Chat.type file) "image/") eqn:Himg; simpl;
    [ destruct (env (Chat.ReadAsDataURL file)) as [result|] eqn:Hread
    | destruct (env (Chat.ReadAsText file)) as [result|] eqn:Hread ]; simpl
  | destruct (Js.truthy (Js.trim inp)) eqn:Htrim; simpl ].

(** C5.  When the inference service cannot be reached, the call is
    rejected with the [TypeError] of the engine's [fetch].  The send
    then still returns normally and appends, after the user's message,
    one assistant entry; but that entry holds the connectivity text
    only on the engines whose message reads "Failed to fetch" or
    contains "NetworkError".  On the others the same failure is told
    with the generic text: the test of [handleSubmit] misses them. *)
Theorem unreachable_service_diagnostic
  (engine : ChatSpec.Engine) (env : forall c, Chat.Reply c) (s : Chat.State) :
  Chat.selectedFile s = None ->
  Js.trim (Chat.input s) <> "" ->
  env (Chat.OllamaChat (Chat.chatRequest (Chat.input s) None))
  = Rejected (ChatSpec.failedFetch engine) ->
  exists t,
    Chat.send env s
    = (Chat.mkState
         (Chat.messages s
          ++ [Chat.mkMessage Chat.user (Chat.input s) None;
              Chat.mkMessage Chat.assistant
                (match engine with
                 | ChatSpec.Chromium | ChatSpec.Gecko =>
                     ChatSpec.connectivityText
                 | ChatSpec.WebKit | ChatSpec.Undici =>
                     ChatSpec.genericText
                 end) None])
         "" false None,
       t, Returned tt).
Proof.
  intros Hfile Htrim Hchat. apply truthy_trim_true in Htrim.
  destruct s as [msgs inp ld file]. simpl in *. subst file.
  unfold Chat.send, Chat.handleSubmit. simpl Chat.input. simpl Chat.selectedFile.
  rewrite Htrim. simpl. rewrite Hchat.
  destruct engine; simpl; eexists; rewrite <- app_assoc; reflexivity.
Qed.

Lemma unreachable_service_diagnostic_witness :
  exists t,
    Chat.send (ChatSpec.unreachableOn ChatSpec.WebKit)
      (Chat.mkState [] "Hello" false None)
    = (Chat.mkState
         [Chat.mkMessage Chat.user "Hello" None;
          Chat.mkMessage Chat.assistant
            "Sorry, I encountered an error processing your request." None]
         "" false None,
       t, Returned tt).
Proof.
  apply (unreachable_service_diagnostic ChatSpec.WebKit
           (ChatSpec.unreachableOn ChatSpec.WebKit)
           (Chat.mkState [] "Hello" false None)).
  - reflexivity.
  - discriminate.
  - reflexivity.
Defined.

(** With no file pending, a submit either does nothing or puts one
    send in flight, in its last leg. *)
Lemma text_only_step (w : Chat.Session) (ev : Chat.Event) :
  ChatSpec.OneSend w -> ChatSpec.textOnly ev = true ->
  ChatSpec.OneSend (Chat.step w ev).
Proof.
  intros [Hfile Hcases] Hev. unfold ChatSpec.OneSend.
  destruct ev as [value | [file|] | | i env]; try discriminate Hev; simpl.
  - split; assumption.
  - split; [reflexivity | assumption].
  - unfold Chat.submitDisabled.
    destruct Hcases as [[Hld Hin] | [Hld Hin]]; rewrite Hld;
      [|split; [assumption | right; split; assumption]].
    unfold Chat.handleSubmit. rewrite Hfile.
    destruct (Js.truthy (Js.trim (Chat.input (state w)))); simpl.
    + unfold resume. simpl. split; [reflexivity|]. right.
      split; [reflexivity|]. rewrite Hin. simpl.
      eexists. split; [reflexivity|]. simpl. split; [reflexivity|].
      intros r s.
      destruct r as [[[[m|]]|]|[message|]]; simpl; eexists; repeat split.
    + unfold resume. simpl. split; [assumption|]. left. split; assumption.
  - destruct Hcases as [[Hld Hin] | [Hld (h & Hin & Hh)]].
    + unfold settle_at. rewrite Hin. destruct i; simpl;
        (split; [assumption | left; split; assumption]).
    + unfold settle_at. rewrite Hin.
      destruct i as [|i]; simpl;
        [|destruct i; simpl; (split; [assumption|]); right;
          (split; [assumption|]); exists h; split; assumption].
      destruct h as [a | e | a k | c k]; try contradiction.
      destruct Hh as [_ Hk].
      destruct (Hk (env c) (state w)) as (s' & Hrun & Hld' & Hfile').
      unfold resume. simpl. rewrite Hrun. simpl.
      split; [congruence|]. left. split; [assumption | reflexivity].
Qed.

Lemma text_only_steps (evs : list Chat.Event) (w : Chat.Session) :
  ChatSpec.OneSend w -> forallb ChatSpec.textOnly evs = true ->
  ChatSpec.OneSend (Chat.steps evs w).
Proof.
  revert w. induction evs as [|ev evs IH]; intros w Hw Hevs; simpl.
  - exact Hw.
  - simpl in Hevs. apply andb_true_iff in Hevs. destruct Hevs as [Hev Hevs].
    apply IH; [apply text_only_step; assumption | exact Hevs].
Qed.

(** A submit with a file selected, the flag clear: the state stays as
    it is and one more handler is in flight. *)
Lemma file_submit_parks (w : Chat.Session) (file : Chat.File) :
  Chat.isLoading (state w) = false ->
  Chat.selectedFile (state w) = Some file ->
  state (Chat.step w Chat.Submit) = state w
  /\ length (inflight (Chat.step w Chat.Submit)) = S (length (inflight w)).
Proof.
  intros Hld Hfile. simpl. unfold Chat.submitDisabled. rewrite Hld.
  unfold Chat.handleSubmit. rewrite Hfile, andb_false_r.
  destruct (Js.startsWith (Chat.type file) "image/");
    unfold resume; simpl; rewrite length_app; simpl;
    (split; [destruct (state w); reflexivity | apply Nat.add_1_r]).
Qed.

(** C6.  The loading flag brackets a text-only send, but not a send
    with a file.  As long as no file is selected, sends never overlap:
    the chat is idle with the loader absent, or exactly one send is in
    flight with the loader present and the submit button disabled.
    With a file selected, whatever the file and the text, the submit
    leaves one send in flight, reading the file, with the loader absent
    and the submit button enabled; a second submit then starts a second
    send beside it; so for a text file submitted twice in a row, once
    both reads have delivered, the transcript holds the user's message
    twice and the model has been sent it twice. *)
Theorem loading_flag_misses_file_read :
  (forall evs,
     forallb ChatSpec.textOnly evs = true ->
     (inflight (Chat.steps evs Chat.mount) = []
      /\ Chat.loadingIndicator (state (Chat.steps evs Chat.mount)) = false)
     \/ (exists h,
           inflight (Chat.steps evs Chat.mount) = [h]
           /\ ChatSpec.lastLeg h
           /\ Chat.loadingIndicator (state (Chat.steps evs Chat.mount)) = true
           /\ Chat.submitDisabled (state (Chat.steps evs Chat.mount)) = true))
  /\ (forall value file,
        length (inflight
                  (Chat.steps [Chat.ChangeInput value;
                               Chat.ChangeFile (Some file); Chat.Submit]
                     Chat.mount)) = 1
        /\ Chat.loadingIndicator
             (state (Chat.steps [Chat.ChangeInput value;
                                 Chat.ChangeFile (Some file); Chat.Submit]
                       Chat.mount)) = false
        /\ Chat.submitDisabled
             (state (Chat.steps [Chat.ChangeInput value;
                                 Chat.ChangeFile (Some file); Chat.Submit]
                       Chat.mount)) = false
        /\ length (inflight
                     (Chat.steps [Chat.ChangeInput value;
                                  Chat.ChangeFile (Some file); Chat.Submit;
                                  Chat.Submit]
                        Chat.mount)) = 2)
  /\ (exists text,
        ChatLegs.userTexts
          (Chat.messages
             (state (Chat.steps [Chat.ChangeInput "see this";
                                 Chat.ChangeFile (Some ChatSpec.notes);
                                 Chat.Submit; Chat.Submit;
                                 Chat.Settle 0 ChatSpec.serviceUp;
                                 Chat.Settle 0 ChatSpec.serviceUp]
                       Chat.mount)))
        = [text; text]
        /\ flat_map ChatLegs.requestTexts
             (calls (Chat.steps [Chat.ChangeInput "see this";
                                 Chat.ChangeFile (Some ChatSpec.notes);
                                 Chat.Submit; Chat.Submit;
                                 Chat.Settle 0 ChatSpec.serviceUp;
                                 Chat.Settle 0 ChatSpec.serviceUp]
                       Chat.mount))
           = [text; text]).
Proof.
  split; [|split].
  - intros evs Hevs.
    destruct (text_only_steps evs Chat.mount) as [_ [[H1 H2] | [H1 (h & H2 & H3)]]].
    + split; [reflexivity | left; split; reflexivity].
    + exact Hevs.
    + left. split; assumption.
    + right. exists h. repeat split; assumption.
  - intros value file.
    set (w0 := Chat.steps [Chat.ChangeInput value; Chat.ChangeFile (Some file)]
                 Chat.mount).
    change (Chat.steps [Chat.ChangeInput value; Chat.ChangeFile (Some file);
                        Chat.Submit] Chat.mount)
      with (Chat.step w0 Chat.Submit).
    change (Chat.steps [Chat.ChangeInput value; Chat.ChangeFile (Some file);
                        Chat.Submit; Chat.Submit] Chat.mount)
      with (Chat.step (Chat.step w0 Chat.Submit) Chat.Submit).
    destruct (file_submit_parks w0 file eq_refl eq_refl) as [H1 H2].
    destruct (file_submit_parks (Chat.step w0 Chat.Submit) file) as [H3 H4];
      try (rewrite H1; reflexivity).
    unfold Chat.loadingIndicator, Chat.submitDisabled.
    rewrite H4, H2, H1. repeat split.
  - eexists. split; vm_compute; reflexivity.
Qed.

Lemma loading_flag_misses_file_read_witness :
  Chat.loadingIndicator
    (state (Chat.steps [Chat.ChangeInput "Hello"; Chat.Submit] Chat.mount))
  = true.
Proof.
  destruct (proj1 loading_flag_misses_file_read
              [Chat.ChangeInput "Hello"; Chat.Submit] eq_refl)
    as [[H _] | (h & _ & _ & H & _)].
  - discriminate H.
  - exact H.
Defined.

(** C7.  The transcript is append-only.  Whatever the user does and
    however the reads and inference calls in flight settle, in whatever
    order, the transcript after any further events is the transcript
    before them followed by new entries: no entry is changed, removed
    or reordered, and every entry keeps the position it was appended
    at, which is the position the list is rendered in. *)
Theorem transcript_append_only (before further : list Chat.Event) :
  exists appended,
    Chat.messages (state (Chat.steps (before ++ further) Chat.mount))
    = Chat.messages (state (Chat.steps before Chat.mount)) ++ appended.
Proof.
  rewrite chat_steps_app.
  destruct (chat_steps_sound before Chat.mount mount_sound) as [Hsound _].
  destruct (chat_steps_sound further _ Hsound) as [_ Hext].
  exact Hext.
Qed.

(** C8, as stated, fails for an image without payload.  The reader's
    data URL of an empty image file ends at its comma: the user's
    message carries its one image entry, the empty string, and the
    request carries no image. *)
Lemma empty_payload_counterexample :
  Chat.messages
    (fst (fst (Chat.send ChatSpec.emptyImage
                 (Chat.mkState [] "look" false (Some ChatSpec.photo)))))
  = [Chat.mkMessage Chat.user "look" (Some [Some ""]);
     Chat.mkMessage Chat.assistant "Hi there" None]
  /\ ChatSpec.inferenceCalls
       (snd (fst (Chat.send ChatSpec.emptyImage
                    (Chat.mkState [] "look" false (Some ChatSpec.photo)))))
     = [Ollama.mkChatRequest "llama3.2-vision:11b"
          [Ollama.mkMessage "user" "look" None]].
Proof. split; reflexivity. Qed.

(** C8, amended.  Every inference request the chat ever issues names
    the one configured model and holds exactly one message, of role
    user.  In a send, that message has the text of the user message the
    send appends, whatever the transcript held before, and it carries
    the image of that user message exactly when that image is a
    non-empty string: then the request has this one image, and when the
    user message has no image entry, or an entry that is [undefined] or
    empty, the request has none. *)
Theorem inference_request_is_single_turn
  (env : forall c, Chat.Reply c) (s : Chat.State) :
  (forall evs, Forall ChatSpec.singleTurn (calls (Chat.steps evs Chat.mount)))
  /\ forall request,
       In request (ChatSpec.inferenceCalls (snd (fst (Chat.send env s)))) ->
       exists u a images,
         Chat.messages (fst (fst (Chat.send env s)))
         = Chat.messages s ++ [u; a]
         /\ Chat.role u = Chat.user
         /\ request
            = Ollama.mkChatRequest "llama3.2-vision:11b"
                [Ollama.mkMessage "user" (Chat.content u) images]
         /\ ((exists b,
                b <> "" /\ Chat.images u = Some [Some b] /\ images = Some [b])
             \/ (images = None
                 /\ (Chat.images u = None
                     \/ Chat.images u = Some [None]
                     \/ Chat.images u = Some [Some ""]))).
Proof.
  split.
  { intros evs. apply (chat_steps_sound evs Chat.mount mount_sound). }
  intros request.
  chat_cases env s; try (intros []; fail);
    destruct (env (Chat.OllamaChat (Chat.chatRequest _ _)))
      as [[[[m|]]|]|[message|]]; simpl;
    intros [<-|[]];
    eexists _, _, _; rewrite <- app_assoc; simpl;
    (split; [reflexivity|]); simpl;
    (split; [reflexivity|]);
    (split; [reflexivity|]);
    try (right; split; [reflexivity | left; reflexivity]);
    (change (match Js.split "," result with
             | _ :: x :: _ => Some x
             | _ => None
             end) with (nth_error (Js.split "," result) 1);
     destruct (nth_error (Js.split "," result) 1) as [b|];
     [ unfold Js.truthy; destruct (b =? "") eqn:E; simpl;
       [ apply String.eqb_eq in E; subst b;
         right; split; [reflexivity | right; right; reflexivity]
       | apply String.eqb_neq in E;
         left; exists b; repeat split; assumption ]
     | right; split; [reflexivity | right; left; reflexivity] ]).
Qed.

Lemma inference_request_is_single_turn_witness :
  exists u a,
    Chat.messages
      (fst (fst (Chat.send ChatSpec.serviceUp
                   (Chat.mkState [Chat.mkMessage Chat.user "earlier" None;
                                  Chat.mkMessage Chat.assistant "reply" None]
                      "look" false (Some ChatSpec.photo)))))
    = [Chat.mkMessage Chat.user "earlier" None;
       Chat.mkMessage Chat.assistant "reply" None; u; a]
    /\ Chat.content u = "look"
    /\ Chat.images u = Some [Some "iVBORw0KGgo="].
Proof.
  destruct (proj2 (inference_request_is_single_turn ChatSpec.serviceUp
                     (Chat.mkState [Chat.mkMessage Chat.user "earlier" None;
                                    Chat.mkMessage Chat.assistant "reply" None]
                        "look" false (Some ChatSpec.photo)))
              (Chat.chatRequest "look" (Some "iVBORw0KGgo=")))
    as (u & a & images & H1 & _ & H2 & H3).
  - simpl. left. reflexivity.
  - exists u, a. split; [exact H1|].
    injection H2 as H2 Himg. split; [symmetry; exact H2|].
    destruct H3 as [(b & _ & Hu & Hb) | (Hn & _)].
    + rewrite Hu. rewrite Hb in Himg. injection Himg as <-. reflexivity.
    + rewrite Hn in Himg. discriminate Himg.
Defined.

(* ================================================================== *)
(** * The login gate and the shell *)
(* ================================================================== *)

Lemma credentials_checked (env : AuthForm.ImportMetaEnv) (u p : string) :
  Js.strict_eq u (AuthForm.VITE_AUTH_USERNAME env)
  && Js.strict_eq p (AuthForm.VITE_AUTH_PASSWORD env) = true
  <-> AppSpec.credentialsMatch env u p.
Proof.
  unfold AppSpec.credentialsMatch, Js.strict_eq.
  rewrite andb_true_iff.
  destruct (AuthForm.VITE_AUTH_USERNAME env) as [cu|],
           (AuthForm.VITE_AUTH_PASSWORD env) as [cp|];
    try (split; [intros [? ?]; discriminate | intros [? ?]; discriminate]).
  rewrite !String.eqb_eq. split.
  - intros [-> ->]. split; reflexivity.
  - intros [H1 H2]. injection H1 as ->. injection H2 as ->. split; reflexivity.
Qed.

(** C1.  A login attempt with the pair [(u, p)] always returns; it
    calls [onLogin(true)], which sets the authentication flag, exactly
    when [u] is the configured username and [p] the configured
    password; for every other pair the flag is left as it was and the
    one thing shown is the alert. *)
Theorem login_succeeds_iff_credentials_match
  (env : AuthForm.ImportMetaEnv) (reply : forall c, AuthForm.Reply c)
  (u p : string) (s : App.State) :
  snd (App.attemptLogin env reply u p s) = Returned tt
  /\ (In (Did (AuthForm.OnLogin true))
         (snd (fst (App.attemptLogin env reply u p s)))
       <-> AppSpec.credentialsMatch env u p)
  /\ (AppSpec.credentialsMatch env u p ->
       App.isAuthenticated (fst (fst (App.attemptLogin env reply u p s))) = true
       /\ App.alerts (fst (fst (App.attemptLogin env reply u p s)))
          = App.alerts s)
  /\ (~ AppSpec.credentialsMatch env u p ->
       App.isAuthenticated (fst (fst (App.attemptLogin env reply u p s)))
       = App.isAuthenticated s
       /\ App.alerts (fst (fst (App.attemptLogin env reply u p s)))
          = App.alerts s ++ ["Invalid credentials"]).
Proof.
  pose proof (credentials_checked env u p) as Hc.
  unfold App.attemptLogin, AuthForm.handleAuth.
  destruct s as [flag [form|chat] shown]; simpl;
    (destruct (Js.strict_eq u (AuthForm.VITE_AUTH_USERNAME env)
               && Js.strict_eq p (AuthForm.VITE_AUTH_PASSWORD env)) eqn:E;
     [ apply proj1 in Hc; specialize (Hc eq_refl)
     | assert (Hn : ~ AppSpec.credentialsMatch env u p)
         by (intros H; apply Hc in H; discriminate H);
       simpl;
       destruct (reply AuthForm.FormControlsStart) as [[]|e] ]);
    simpl;
    (split; [reflexivity|]);
    (split; [split; [intros H | intros H; simpl; auto 6]|]);
    try contradiction; try assumption;
    try (repeat (destruct H as [H|H]; try discriminate H); destruct H);
    (split; [intros H | intros H]);
    try contradiction; split; reflexivity.
Qed.

Lemma login_succeeds_iff_credentials_match_witness :
  App.isAuthenticated
    (fst (fst (App.attemptLogin AppSpec.configured AppSpec.animates
                 "admin" "hunter2" App.initial)))
  = true
  /\ App.isAuthenticated
       (fst (fst (App.attemptLogin AppSpec.configured AppSpec.animates
                    "admin" "hunter3" App.initial)))
     = false.
Proof.
  split.
  - apply (proj1 (proj2 (proj2
             (login_succeeds_iff_credentials_match AppSpec.configured
                AppSpec.animates "admin" "hunter2" App.initial)))).
    split; reflexivity.
  - apply (proj2 (proj2 (proj2
             (login_succeeds_iff_credentials_match AppSpec.configured
                AppSpec.animates "admin" "hunter3" App.initial)))).
    intros [_ H]. discriminate H.
Defined.

(** ** Handlers in flight on the page *)

Lemma rejected_attempt_obeys (r : Settled unit) :
  Obeys (Reply := AuthForm.Reply) AppSpec.noLogin
    (fun _ : AuthForm.Call => True)
    (finally
       (try_catch
          (bind (settle r : AuthForm.Handler unit)
             (fun _ : unit =>
                Throw (A := unit) (ErrorObject "Invalid credentials")))
          (fun error =>
             bind (act (AuthForm.ConsoleError "Error:" error))
               (fun _ => act (AuthForm.Alert "Invalid credentials"))))
       (act (AuthForm.SetLoading false))).
Proof.
  destruct r as [[]|e]; simpl; repeat (constructor; try exact I).
Qed.

Lemma orphan_rest (p : AuthForm.Handler unit) :
  forall s s',
    snd (run_sync App.perform (App.orphan p) s)
    = App.orphan (snd (run_sync App.perform p s')).
Proof.
  induction p as [a | e | a k IH | c k IH]; intros s s'; try reflexivity.
  destruct a; simpl; apply IH.
Qed.

Lemma sameFlag_perform (a : AuthForm.Act) (s s' : App.State) :
  AppSpec.sameFlag s s' ->
  AppSpec.sameFlag (App.perform a s) (App.perform a s').
Proof.
  unfold AppSpec.sameFlag. intros [H1 H2].
  destruct a; simpl; try (split; assumption).
  - destruct (App.child s), (App.child s'); simpl; split; assumption.
  - split; [reflexivity | assumption].
  - split; [assumption | rewrite H2; reflexivity].
Qed.

Lemma sameFlag_setLoading (v : bool) (s s' : App.State) :
  AppSpec.sameFlag s s' ->
  AppSpec.sameFlag (App.perform (AuthForm.SetLoading v) s) s'.
Proof.
  unfold AppSpec.sameFlag. intros [H1 H2]. simpl.
  destruct (App.child s); simpl; split; assumption.
Qed.

(** Orphaning a handler changes neither what it does to the flag and
    the alerts nor where it suspends next. *)
Lemma orphan_flag (p : AuthForm.Handler unit) :
  forall s s',
    AppSpec.sameFlag s s' ->
    AppSpec.sameFlag (fst (run_sync App.perform p s))
      (fst (run_sync App.perform (App.orphan p) s')).
Proof.
  induction p as [a | e | a k IH | c k IH]; intros s s' H; try exact H.
  destruct a;
    try (apply IH; apply sameFlag_perform; exact H).
  apply IH. apply sameFlag_setLoading. exact H.
Qed.

Lemma orphan_obeys (PA : AuthForm.Act -> Prop) (PC : AuthForm.Call -> Prop)
  (p : AuthForm.Handler unit) :
  Obeys PA PC p -> Obeys PA PC (App.orphan p).
Proof.
  induction 1 as [a | a k Ha Hk IH | c k Hc Hk IH]; simpl.
  - constructor.
  - destruct a; try (constructor; assumption). exact IH.
  - constructor; assumption.
Qed.



Lemma flag_quiet (p : AuthForm.Handler unit) :
  AppSpec.quiet p ->
  forall s,
    App.isAuthenticated (fst (run_sync App.perform p s))
    = App.isAuthenticated s
    /\ AppSpec.quiet (snd (run_sync App.perform p s)).
Proof.
  induction 1 as [a | a k Ha Hk IH | c k Hc Hk IH]; intros s; simpl.
  - split; [reflexivity | constructor].
  - destruct (IH (App.perform a s)) as [H1 H2]. split; [|exact H2].
    rewrite H1. destruct a; simpl; try reflexivity; try contradiction.
    destruct (App.child s); reflexivity.
  - split; [reflexivity | constructor; assumption].
Qed.

(** How an attempt in its delay ends: with the configured pair it sets
    the flag and is over; with any other pair it leaves the flag and
    is quiet from then on. *)
Lemma submitted_settles (env : AuthForm.ImportMetaEnv) (u p : string)
  (h : AuthForm.Handler unit) :
  AppSpec.Submitted env u p h ->
  exists c (k : AuthForm.Reply c -> AuthForm.Handler unit),
    h = Await c k
    /\ forall r s,
         (AppSpec.credentialsMatch env u p ->
          snd (run_sync App.perform (k r) s) = Ret tt
          /\ App.isAuthenticated (fst (run_sync App.perform (k r) s)) = true)
         /\ (~ AppSpec.credentialsMatch env u p ->
             AppSpec.quiet (snd (run_sync App.perform (k r) s))
             /\ App.isAuthenticated (fst (run_sync App.perform (k r) s))
                = App.isAuthenticated s).
Proof.
  pose proof (credentials_checked env u p) as Hc.
  induction 1 as [|h Hh IH].
  - unfold AppSpec.waiting. simpl. exists (AuthForm.SetTimeout 500).
    eexists. split; [reflexivity|].
    intros r s. simpl.
    destruct (Js.strict_eq u (AuthForm.VITE_AUTH_USERNAME env)
              && Js.strict_eq p (AuthForm.VITE_AUTH_PASSWORD env)) eqn:E; simpl.
    + split; [intros _ | intros Hn; exfalso; apply Hn, Hc; reflexivity].
      split; [reflexivity | destruct (App.child s); reflexivity].
    + split; [intros H; apply Hc in H; discriminate H | intros _].
      split; [|reflexivity].
      constructor; [exact I|]. intros r'. apply rejected_attempt_obeys.
  - destruct IH as (c & k & -> & Hk). simpl.
    eexists _, _. split; [reflexivity|]. intros r s.
    destruct (Hk r s) as [Hyes Hno].
    destruct (orphan_flag (k r) s s) as [Hflag _]; [split; reflexivity|].
    rewrite (orphan_rest (k r) s s), Hflag.
    split.
    + intros H. destruct (Hyes H) as [H1 H2]. rewrite H1. split; [reflexivity | exact H2].
    + intros H. destruct (Hno H) as [H1 H2]. split; [|exact H2].
      apply orphan_obeys. exact H1.
Qed.

Lemma settle_flag_submitted (env : AuthForm.ImportMetaEnv) (u p : string)
  (h : AuthForm.Handler unit) (m : App.Machine) (i : nat)
  (reply : forall c, AuthForm.Reply c) :
  nth_error (inflight m) i = Some h ->
  AppSpec.Submitted env u p h ->
  (AppSpec.credentialsMatch env u p ->
   App.isAuthenticated (state (settle_at App.perform i reply m)) = true)
  /\ (~ AppSpec.credentialsMatch env u p ->
      App.isAuthenticated (state (settle_at App.perform i reply m))
      = App.isAuthenticated (state m))
  /\ forall P : AuthForm.Handler unit -> Prop,
       (forall h', AppSpec.quiet h' -> P h') ->
       Forall P (inflight m) ->
       Forall P (inflight (settle_at App.perform i reply m)).
Proof.
  intros Hnth Hh.
  pose proof (credentials_checked env u p) as Hc.
  destruct (submitted_settles env u p h Hh) as (c & k & -> & Hk).
  unfold settle_at. rewrite Hnth. rewrite resume_state, resume_inflight. simpl.
  destruct (Hk (reply c) (state m)) as [Hyes Hno].
  split; [intros H; apply (Hyes H)|].
  split; [intros H; apply (Hno H)|].
  intros P HP Hall. apply Forall_app.
  split; [apply Forall_remove_nth; exact Hall|].
  destruct (Js.strict_eq u (AuthForm.VITE_AUTH_USERNAME env)
            && Js.strict_eq p (AuthForm.VITE_AUTH_PASSWORD env)) eqn:E.
  - destruct Hyes as [H1 _]; [apply Hc; reflexivity|]. rewrite H1. constructor.
  - destruct Hno as [H1 _]; [intros H; apply Hc in H; discriminate H|].
    destruct (snd (run_sync App.perform (k (reply c)) (state m)));
      constructor; [apply HP; exact H1 | constructor].
Qed.

Lemma settle_flag_quiet (h : AuthForm.Handler unit) (m : App.Machine)
  (i : nat) (reply : forall c, AuthForm.Reply c) :
  nth_error (inflight m) i = Some h ->
  AppSpec.quiet h ->
  App.isAuthenticated (state (settle_at App.perform i reply m))
  = App.isAuthenticated (state m)
  /\ forall P : AuthForm.Handler unit -> Prop,
       (forall h', AppSpec.quiet h' -> P h') ->
       Forall P (inflight m) ->
       Forall P (inflight (settle_at App.perform i reply m)).
Proof.
  intros Hnth Hh. unfold settle_at. rewrite Hnth.
  destruct h as [a | e | a k | c k];
    try (split; [reflexivity | intros P _ Hall; exact Hall]).
  apply Obeys_Await_inv in Hh. destruct Hh as [_ Hk].
  destruct (flag_quiet (k (reply c)) (Hk (reply c)) (state m)) as [H1 H2].
  rewrite resume_state, resume_inflight. simpl.
  split; [exact H1|]. intros P HP Hall. apply Forall_app.
  split; [apply Forall_remove_nth; exact Hall|].
  destruct (snd (run_sync App.perform (k (reply c)) (state m)));
    constructor; [apply HP; exact H2 | constructor].
Qed.

(** ** Steps of the page *)

Lemma app_steps_snoc (env : AuthForm.ImportMetaEnv) (evs : list App.Event)
  (ev : App.Event) (m : App.Machine) :
  App.steps env (evs ++ [ev]) m = App.step env (App.steps env evs m) ev.
Proof. unfold App.steps. rewrite fold_left_app. reflexivity. Qed.

Lemma submit_parks (env : AuthForm.ImportMetaEnv) (u p : string) (s : App.State) :
  snd (run_sync App.perform (AuthForm.handleAuth env u p) s)
  = AppSpec.waiting env u p.
Proof. reflexivity. Qed.

Lemma submit_inflight (env : AuthForm.ImportMetaEnv) (u p : string)
  (m : App.Machine) :
  inflight (resume App.perform (AuthForm.handleAuth env u p) m)
  = inflight m ++ [AppSpec.waiting env u p].
Proof. reflexivity. Qed.

Lemma submit_state (env : AuthForm.ImportMetaEnv) (u p : string) (s : App.State) :
  fst (run_sync App.perform (AuthForm.handleAuth env u p) s)
  = App.perform (AuthForm.SetLoading true) s.
Proof. reflexivity. Qed.

Lemma submit_accepted (form : AuthForm.State) :
  AuthForm.submitBlocked form = false ->
  AuthForm.loading form = false
  /\ AuthForm.username form <> "" /\ AuthForm.password form <> "".
Proof.
  unfold AuthForm.submitBlocked. intros H.
  apply orb_false_iff in H. destruct H as [H Hp].
  apply orb_false_iff in H. destruct H as [Hl Hu].
  repeat split; [exact Hl | |]; apply String.eqb_neq; assumption.
Qed.

Lemma onForm_flag (f : AuthForm.State -> AuthForm.State) (s : App.State) :
  App.isAuthenticated (App.onForm f s) = App.isAuthenticated s
  /\ App.showsChat (App.onForm f s) = App.showsChat s
  /\ App.alerts (App.onForm f s) = App.alerts s.
Proof.
  unfold App.onForm, App.showsChat.
  destruct (App.child s) eqn:E; simpl; rewrite ?E; repeat split.
Qed.

Lemma onChat_flag (f : Chat.Session -> Chat.Session) (s : App.State) :
  App.isAuthenticated (App.onChat f s) = App.isAuthenticated s
  /\ App.showsChat (App.onChat f s) = App.showsChat s
  /\ App.alerts (App.onChat f s) = App.alerts s.
Proof.
  unfold App.onChat, App.showsChat.
  destruct (App.child s) eqn:E; simpl; rewrite ?E; repeat split.
Qed.

Lemma setLoading_flag (v : bool) (s : App.State) :
  App.isAuthenticated (App.perform (AuthForm.SetLoading v) s)
  = App.isAuthenticated s.
Proof. simpl. destruct (App.child s); reflexivity. Qed.

(** What is in flight stays of the two kinds, whatever happens. *)
Lemma inflight_step (env : AuthForm.ImportMetaEnv) (m : App.Machine)
  (ev : App.Event) :
  AppSpec.InFlight env m -> AppSpec.InFlight env (App.step env m ev).
Proof.
  intros H. destruct ev as [v | v | | i reply | ev | |]; simpl;
    try exact H.
  - destruct (App.child (state m)) as [form|chat] eqn:Ech; [|exact H].
    destruct (AuthForm.submitBlocked form) eqn:Eb; [exact H|].
    destruct (submit_accepted form Eb) as (_ & Hu & Hp).
    unfold AppSpec.InFlight. rewrite submit_inflight.
    apply Forall_app. split; [exact H|].
    constructor; [|constructor].
    left. exists (AuthForm.username form), (AuthForm.password form).
    split; [apply AppSpec.Submitted_waiting | split; assumption].
  - destruct (nth_error (inflight m) i) as [h|] eqn:Hnth;
      [|unfold settle_at; rewrite Hnth; exact H].
    assert (Hh : (exists u p, AppSpec.Submitted env u p h /\ u <> "" /\ p <> "")
                 \/ AppSpec.quiet h).
    { unfold AppSpec.InFlight in H. rewrite Forall_forall in H.
      apply H. apply (nth_error_In _ _ Hnth). }
    destruct Hh as [(u & p & Hs & _) | Hq].
    + destruct (settle_flag_submitted env u p h m i reply Hnth Hs) as (_ & _ & Hall).
      apply Hall; [intros h' Hq; right; exact Hq | exact H].
    + destruct (settle_flag_quiet h m i reply Hnth Hq) as (_ & Hall).
      apply Hall; [intros h' Hq'; right; exact Hq' | exact H].
  - destruct (App.child (state m)); exact H.
  - unfold App.exitComplete.
    destruct (App.isAuthenticated (state m)), (App.child (state m));
      try exact H.
    unfold AppSpec.InFlight in *. simpl. apply Forall_map.
    apply (Forall_impl _ (P := fun h =>
             (exists u p, AppSpec.Submitted env u p h /\ u <> "" /\ p <> "")
             \/ AppSpec.quiet h)); [|exact H].
    intros h [(u & p & Hs & Hne) | Hq].
    + left. exists u, p. split; [apply AppSpec.Submitted_orphan; exact Hs | exact Hne].
    + right. apply orphan_obeys. exact Hq.
Qed.

Lemma inflight_steps (env : AuthForm.ImportMetaEnv) (evs : list App.Event) :
  AppSpec.InFlight env (App.steps env evs App.start).
Proof.
  induction evs as [|ev evs IH] using rev_ind.
  - constructor.
  - rewrite app_steps_snoc. apply inflight_step. exact IH.
Qed.

(** The flag changes in two ways only. *)
Lemma flag_step (env : AuthForm.ImportMetaEnv) (m : App.Machine)
  (ev : App.Event) :
  AppSpec.InFlight env m ->
  App.isAuthenticated (state (App.step env m ev))
  = App.isAuthenticated (state m)
  \/ (App.isAuthenticated (state (App.step env m ev)) = true
      /\ exists i reply h u p,
           ev = App.SettleAuth i reply
           /\ nth_error (inflight m) i = Some h
           /\ AppSpec.Submitted env u p h
           /\ AppSpec.credentialsMatch env u p
           /\ u <> "" /\ p <> "")
  \/ (App.isAuthenticated (state (App.step env m ev)) = false
      /\ ev = App.ClickLogout
      /\ App.showsChat (state m) = true).
Proof.
  intros H. destruct ev as [v | v | | i reply | ev | |]; simpl.
  - left. apply onForm_flag.
  - left. apply onForm_flag.
  - left. destruct (App.child (state m)) as [form|chat]; [|reflexivity].
    destruct (AuthForm.submitBlocked form); [reflexivity|].
    rewrite resume_state, submit_state. apply setLoading_flag.
  - destruct (nth_error (inflight m) i) as [h|] eqn:Hnth;
      [|left; unfold settle_at; rewrite Hnth; reflexivity].
    assert (Hh : (exists u p, AppSpec.Submitted env u p h /\ u <> "" /\ p <> "")
                 \/ AppSpec.quiet h).
    { unfold AppSpec.InFlight in H. rewrite Forall_forall in H.
      apply H. apply (nth_error_In _ _ Hnth). }
    destruct Hh as [(u & p & Hs & Hu & Hp) | Hq].
    + destruct (settle_flag_submitted env u p h m i reply Hnth Hs) as (Hyes & Hno & _).
      pose proof (credentials_checked env u p) as Hc.
      destruct (Js.strict_eq u (AuthForm.VITE_AUTH_USERNAME env)
                && Js.strict_eq p (AuthForm.VITE_AUTH_PASSWORD env)) eqn:E.
      * assert (Hm : AppSpec.credentialsMatch env u p) by (apply Hc; reflexivity).
        right. left. split; [apply Hyes; exact Hm|].
        exists i, reply, h, u, p.
        split; [reflexivity|]. split; [exact Hnth|]. split; [exact Hs|].
        split; [exact Hm|]. split; assumption.
      * left. apply Hno. intros Hm. apply Hc in Hm. discriminate Hm.
    + left. apply (settle_flag_quiet h m i reply Hnth Hq).
  - left. apply onChat_flag.
  - unfold App.showsChat.
    destruct (App.child (state m)) as [form|chat]; [left; reflexivity|].
    right. right. repeat split.
  - left. unfold App.exitComplete.
    destruct (App.isAuthenticated (state m)) eqn:E, (App.child (state m));
      simpl; rewrite ?E; reflexivity.
Qed.


(* ================================================================== *)
(** * C9: the page as a state machine *)
(* ================================================================== *)




(** A whole visit: a failed login, a login, a chat with an image, and
    the logout, each view mounted when the exit of the other one has
    completed. *)
Example a_visit :
  let page1 :=
    App.steps AppSpec.configured
      [App.ChangeUsername "admin"; App.ChangePassword "wrong";
       App.SubmitAuth; App.SettleAuth 0 AppSpec.animates;
       App.SettleAuth 0 AppSpec.animates] App.start in
  let page2 :=
    App.steps AppSpec.configured
      [App.ChangePassword "hunter2";
       App.SubmitAuth; App.SettleAuth 0 AppSpec.animates;
       App.ExitComplete] page1 in
  let page3 :=
    App.steps AppSpec.configured
      [App.ChatEvent (Chat.ChangeInput "What is this?");
       App.ChatEvent (Chat.ChangeFile (Some ChatSpec.photo));
       App.ChatEvent Chat.Submit;
       App.ChatEvent (Chat.Settle 0 ChatSpec.serviceUp);
       App.ChatEvent (Chat.Settle 0 ChatSpec.serviceUp)] page2 in
  let page4 :=
    App.steps AppSpec.configured [App.ClickLogout; App.ExitComplete] page3 in
  state page1
  = App.mkState false
      (App.AuthFormMounted (AuthForm.mkState "admin" "wrong" false))
      ["Invalid credentials"]
  /\ state page2
     = App.mkState true (App.ChatMounted Chat.mount) ["Invalid credentials"]
  /\ App.transcript (state page3)
     = [Chat.mkMessage Chat.user "What is this?" (Some [Some "iVBORw0KGgo="]);
        Chat.mkMessage Chat.assistant "Hi there" None]
  /\ state page4
     = App.mkState false (App.AuthFormMounted AuthForm.initial)
         ["Invalid credentials"].
Proof. vm_compute. repeat split. Qed.

(* ================================================================== *)
(** * Further properties of the chat *)
(* ================================================================== *)

(** X1.  With a file selected, a submit is never a no-op, whatever the
    input, blank included: the handler first suspends on a read of that
    file, as a data URL when its media type begins with [image/] and as
    text otherwise, and up to there the state is untouched, so nothing
    of the message is on the page while the file is read. *)
Theorem file_submit_starts_read
  (env : forall c, Chat.Reply c) (s : Chat.State) (file : Chat.File) :
  Chat.selectedFile s = Some file ->
  exists rest,
    suspensions Chat.perform env
      (Chat.handleSubmit (Chat.input s) (Chat.selectedFile s)) s
    = ((if Js.startsWith (Chat.type file) "image/"
        then Chat.ReadAsDataURL file
        else Chat.ReadAsText file), s) :: rest.
Proof.
  intros Hfile. destruct s as [msgs inp ld sel]. simpl in Hfile. subst sel.
  unfold Chat.handleSubmit. cbn [Chat.input Chat.selectedFile].
  rewrite andb_false_r.
  destruct (Js.startsWith (Chat.type file) "image/"); simpl;
    eexists; reflexivity.
Qed.

Lemma file_submit_starts_read_witness :
  exists rest,
    suspensions Chat.perform ChatSpec.serviceUp
      (Chat.handleSubmit "" (Some ChatSpec.photo))
      (Chat.mkState [] "" false (Some ChatSpec.photo))
    = (Chat.ReadAsDataURL ChatSpec.photo,
       Chat.mkState [] "" false (Some ChatSpec.photo)) :: rest.
Proof.
  apply (file_submit_starts_read ChatSpec.serviceUp
           (Chat.mkState [] "" false (Some ChatSpec.photo)) ChatSpec.photo).
  reflexivity.
Defined.

(** X2.  A send clears the typed text exactly when it has put the
    user's message on the transcript.  Either a user entry is appended
    and the input ends empty, or no user entry is appended (nothing at
    all, or one assistant diagnostic after a failed file read) and the
    input ends as the user left it. *)
Theorem input_cleared_iff_message_appended
  (env : forall c, Chat.Reply c) (s : Chat.State) :
  (exists u a,
     Chat.messages (fst (fst (Chat.send env s))) = Chat.messages s ++ [u; a]
     /\ Chat.role u = Chat.user
     /\ Chat.input (fst (fst (Chat.send env s))) = "")
  \/ (Chat.input (fst (fst (Chat.send env s))) = Chat.input s
      /\ (Chat.messages (fst (fst (Chat.send env s))) = Chat.messages s
          \/ exists d,
               Chat.messages (fst (fst (Chat.send env s)))
               = Chat.messages s ++ [d]
               /\ Chat.role d = Chat.assistant)).
Proof.
  chat_cases env s;
    try (right; split; [reflexivity|]; left; reflexivity);
    try (right; split; [reflexivity|]; right; eexists;
         split; reflexivity);
    left;
    destruct (env (Chat.OllamaChat (Chat.chatRequest _ _)))
      as [[[[m|]]|]|[message|]]; simpl;
    eexists _, _; rewrite <- app_assoc; simpl; repeat split.
Qed.

(** Name the reader's result in [H] and in the rest of the goal, so
    that it is not computed with. *)
Ltac split_result H :=
  match type of H with
  | nth_error (Js.split _ ?r) _ = _ =>
      let result := fresh "result" in
      set (result := r) in *; clearbody result
  end.

(** X3.  The preview of an uploaded image.  When the reader delivers
    the data URL of an image file, the user's row is rendered with
    exactly one image whose [src] is the data URL of the same payload
    labelled [image/png], whatever the file's own media type; for a
    PNG file that is the reader's result itself.  The row shows the
    input as typed and no loader is left. *)
Theorem image_preview_src
  (env : forall c, Chat.Reply c) (s : Chat.State) (file : Chat.File)
  (payload : string) :
  Chat.selectedFile s = Some file ->
  Js.startsWith (Chat.type file) "image/" = true ->
  ChatSpec.noComma (Chat.type file) = true ->
  ChatSpec.noComma payload = true ->
  env (Chat.ReadAsDataURL file)
  = Chat.Loaded (ChatSpec.dataURL (Chat.type file) payload) ->
  exists a,
    ChatView.transcriptView (fst (fst (Chat.send env s)))
    = map ChatView.renderMessage (Chat.messages s)
      ++ [ChatView.Bubble ChatView.justify_end
            [ChatSpec.dataURL "image/png" payload] (Chat.input s);
          ChatView.Bubble ChatView.justify_start [] a]
    /\ (Chat.type file = "image/png" ->
        ChatSpec.dataURL "image/png" payload
        = ChatSpec.dataURL (Chat.type file) payload).
Proof.
  intros Hfile Himg Hm Hp Hread.
  pose proof (split_dataURL _ _ Hm Hp) as Hsplit.
  assert (Hpng : Chat.type file = "image/png" ->
                 ChatSpec.dataURL "image/png" payload
                 = ChatSpec.dataURL (Chat.type file) payload)
    by (intros ->; reflexivity).
  split_result Hsplit.
  destruct s as [msgs inp ld sel]. simpl in Hfile. subst sel.
  unfold Chat.send, Chat.handleSubmit. cbn [Chat.input Chat.selectedFile].
  rewrite andb_false_r, Himg. simpl. rewrite Hread. simpl.
  change (match Js.split "," result with
          | _ :: x :: _ => Some x
          | _ => None
          end)
    with (nth_error (Js.split "," result) 1).
  rewrite Hsplit.
  destruct (env (Chat.OllamaChat _)) as [[[[m|]]|]|[message|]]; simpl;
    unfold ChatView.transcriptView; simpl;
    rewrite app_nil_r, <- app_assoc, map_app; simpl;
    eexists; (split; [reflexivity | exact Hpng]).
Qed.

Lemma image_preview_src_witness :
  exists a,
    ChatView.transcriptView
      (fst (fst (Chat.send ChatSpec.serviceUp
                   (Chat.mkState [] "look" false (Some ChatSpec.photo)))))
    = [ChatView.Bubble ChatView.justify_end
         ["data:image/png;base64,iVBORw0KGgo="] "look";
       ChatView.Bubble ChatView.justify_start [] a].
Proof.
  destruct (image_preview_src ChatSpec.serviceUp
              (Chat.mkState [] "look" false (Some ChatSpec.photo))
              ChatSpec.photo "iVBORw0KGgo=")
    as (a & H & _); try reflexivity.
  exists a. exact H.
Defined.

(** ** The legs of the sends in flight *)

Lemma last_remove_nth {X : Type} (P : X -> Prop) (d : X) (l : list X)
  (i : nat) (h : X) :
  nth_error l i = Some h -> ~ P h -> P (last l d) ->
  P (last (remove_nth i l) d).
Proof.
  intros Hnth Hh. revert i Hnth.
  induction l as [|x t IH]; intros i Hnth Hlast.
  - destruct i; discriminate Hnth.
  - destruct i as [|j].
    + simpl in Hnth. injection Hnth as ->.
      destruct t as [|y t']; [contradiction | exact Hlast].
    + destruct t as [|y t']; [destruct j; discriminate Hnth|].
      simpl in Hnth.
      assert (IH' := IH j Hnth Hlast).
      change (remove_nth (S j) (x :: y :: t'))
        with (x :: remove_nth j (y :: t')).
      destruct (remove_nth j (y :: t')) as [|z r] eqn:E; [|exact IH'].
      destruct j as [|j]; [|discriminate E].
      destruct t' as [|y' t'']; [|discriminate E].
      simpl in Hnth. injection Hnth as ->. contradiction.
Qed.

Lemma lastLeg_not_readLeg (h : Chat.Handler unit) :
  ChatSpec.lastLeg h -> ~ ChatLegs.readLeg h.
Proof.
  destruct h as [a | e | a k | c k]; simpl; try contradiction.
  intros [H1 _] [H2 _]. congruence.
Qed.

Ltac last_leg :=
  simpl; split; [reflexivity|];
  let r := fresh "r" in let s := fresh "s" in
  intros r s; destruct r as [[[[?|]]|]|[?|]]; simpl; eexists; repeat split.

Ltac read_leg :=
  simpl; split; [reflexivity|];
  let r := fresh "r" in let s := fresh "s" in
  intros r s; destruct r as [?|]; simpl;
  eexists _, _; (split; [reflexivity|]); (split; [reflexivity|]);
  [ right; split; [last_leg | split; reflexivity]
  | left; repeat split ].

Lemma legs_step (w : Chat.Session) (ev : Chat.Event) :
  ChatLegs.Legs w -> ChatLegs.Legs (Chat.step w ev).
Proof.
  intros [Hall Hlast]. unfold ChatLegs.Legs.
  destruct ev as [value | file | | i env]; simpl.
  - split; assumption.
  - split; assumption.
  - unfold Chat.submitDisabled.
    destruct (Chat.isLoading (state w)) eqn:Hld; [split; [assumption | rewrite Hld; exact Hlast]|].
    unfold Chat.handleSubmit.
    destruct (negb (Js.truthy (Js.trim (Chat.input (state w)))) &&
              negb match Chat.selectedFile (state w) with
                   | Some _ => true
                   | None => false
                   end).
    { unfold resume. simpl. rewrite Hld. split; [assumption | discriminate]. }
    destruct (Chat.selectedFile (state w)) as [file|].
    + destruct (Js.startsWith (Chat.type file) "image/"); simpl;
        unfold resume; simpl; rewrite Hld;
        (split; [|discriminate]);
        apply Forall_app; (split; [assumption|]);
        (constructor; [|constructor]); left; read_leg.
    + unfold resume. simpl. split.
      * apply Forall_app. split; [assumption|].
        constructor; [|constructor]. right. last_leg.
      * intros _. rewrite last_last. last_leg.
  - unfold settle_at.
    destruct (nth_error (inflight w) i) as [h|] eqn:Hnth; [|split; assumption].
    assert (Hh : ChatLegs.readLeg h \/ ChatSpec.lastLeg h).
    { rewrite Forall_forall in Hall. apply Hall.
      eapply nth_error_In. exact Hnth. }
    destruct h as [a | e | a k | c k];
      try (exfalso; destruct Hh as [Hf|Hf]; exact Hf).
    destruct Hh as [Hread | Hchat].
    + pose proof Hread as [Hc Hk].
      destruct (Hk (env c) (state w))
        as (s' & rest & Hrun & Hfile & [(-> & Hld & Hin) | (Hrest & Hld & Hin)]).
      * unfold resume. simpl. rewrite Hrun. simpl. split.
        -- apply Forall_remove_nth. exact Hall.
        -- intros Hld'. rewrite Hld in Hld'.
           apply (last_remove_nth ChatSpec.lastLeg (Ret tt) _ i (Await c k) Hnth).
           ++ intros Hl. exact (lastLeg_not_readLeg _ Hl Hread).
           ++ apply Hlast. exact Hld'.
      * unfold resume. simpl. rewrite Hrun.
        destruct rest as [a | e | a k' | c' k']; try contradiction.
        simpl. split.
        -- apply Forall_app. split; [apply Forall_remove_nth; exact Hall|].
           constructor; [right; exact Hrest | constructor].
        -- intros _. rewrite last_last. exact Hrest.
    + destruct Hchat as [Hc Hk].
      destruct (Hk (env c) (state w)) as (s' & Hrun & Hld & Hfile).
      unfold resume. simpl. rewrite Hrun. simpl. split.
      * apply Forall_remove_nth. exact Hall.
      * intros H. congruence.
Qed.

Lemma legs_steps (evs : list Chat.Event) (w : Chat.Session) :
  ChatLegs.Legs w -> ChatLegs.Legs (Chat.steps evs w).
Proof.
  revert w. induction evs as [|ev evs IH]; intros w Hw; simpl.
  - exact Hw.
  - apply IH, legs_step, Hw.
Qed.

Lemma legs_mount : ChatLegs.Legs Chat.mount.
Proof. split; [constructor | discriminate]. Qed.

Lemma lastLeg_last_in (l : list (Chat.Handler unit)) :
  ChatSpec.lastLeg (last l (Ret tt)) -> In (last l (Ret tt)) l.
Proof.
  induction l as [|x t IH]; [intros []|].
  destruct t as [|y t']; [intros _; left; reflexivity|].
  intros H. right. apply IH. exact H.
Qed.

(** X4.  The loader is never left spinning.  Whatever the user does
    and however the reads and calls in flight settle, whenever the
    loader is rendered some send in flight is waiting for the inference
    call, and that send clears the loading flag as soon as its call
    settles, whichever way. *)
Theorem loader_has_a_send_to_clear_it (evs : list Chat.Event) :
  Chat.loadingIndicator (state (Chat.steps evs Chat.mount)) = true ->
  exists h,
    In h (inflight (Chat.steps evs Chat.mount)) /\ ChatSpec.lastLeg h.
Proof.
  intros Hld.
  destruct (legs_steps evs Chat.mount legs_mount) as [_ Hlast].
  specialize (Hlast Hld).
  exists (last (inflight (Chat.steps evs Chat.mount)) (Ret tt)).
  split; [apply lastLeg_last_in; exact Hlast | exact Hlast].
Qed.

Lemma loader_has_a_send_to_clear_it_witness :
  exists h,
    In h (inflight (Chat.steps [Chat.ChangeInput "Hello"; Chat.Submit]
                      Chat.mount))
    /\ ChatSpec.lastLeg h.
Proof.
  apply (loader_has_a_send_to_clear_it [Chat.ChangeInput "Hello"; Chat.Submit]).
  reflexivity.
Defined.

(** X5.  What is selected or typed while a file is being read is
    discarded when the read settles.  On every reachable state, when
    the read a send in flight waits for settles, the pending attachment
    is cleared, whichever file is selected by then; and either the send
    ends there (failed read), input and loading flag staying as they
    are, or it goes on to the inference call, the loading flag set and
    the input cleared, whatever has been typed by then. *)
Theorem read_settlement_discards_later_edits
  (evs : list Chat.Event) (i : nat) (env : forall c, Chat.Reply c)
  (c : Chat.Call) (k : Chat.Reply c -> Chat.Handler unit) :
  nth_error (inflight (Chat.steps evs Chat.mount)) i = Some (Await c k) ->
  ChatSpec.isInference c = false ->
  Chat.selectedFile
    (state (Chat.step (Chat.steps evs Chat.mount) (Chat.Settle i env))) = None
  /\ ((Chat.isLoading
         (state (Chat.step (Chat.steps evs Chat.mount) (Chat.Settle i env)))
       = Chat.isLoading (state (Chat.steps evs Chat.mount))
       /\ Chat.input
            (state (Chat.step (Chat.steps evs Chat.mount) (Chat.Settle i env)))
          = Chat.input (state (Chat.steps evs Chat.mount)))
      \/ (Chat.isLoading
            (state (Chat.step (Chat.steps evs Chat.mount) (Chat.Settle i env)))
          = true
          /\ Chat.input
               (state (Chat.step (Chat.steps evs Chat.mount) (Chat.Settle i env)))
             = "")).
Proof.
  intros Hnth Hc.
  destruct (legs_steps evs Chat.mount legs_mount) as [Hall _].
  assert (Hh : ChatLegs.readLeg (Await c k) \/ ChatSpec.lastLeg (Await c k)).
  { rewrite Forall_forall in Hall. apply Hall.
    eapply nth_error_In. exact Hnth. }
  destruct Hh as [[_ Hk] | [Hc' _]]; [|congruence].
  destruct (Hk (env c) (state (Chat.steps evs Chat.mount)))
    as (s' & rest & Hrun & Hfile & Hcases).
  simpl. unfold settle_at. rewrite Hnth. rewrite resume_state. simpl.
  rewrite Hrun. simpl. split; [exact Hfile|].
  destruct Hcases as [(_ & H1 & H2) | (_ & H1 & H2)];
    [left | right]; split; assumption.
Qed.

Lemma read_settlement_discards_later_edits_witness :
  Chat.selectedFile
    (state
       (Chat.step
          (Chat.steps
             [Chat.ChangeFile (Some ChatSpec.notes); Chat.Submit;
              Chat.ChangeFile (Some ChatSpec.photo); Chat.ChangeInput "next"]
             Chat.mount)
          (Chat.Settle 0 ChatSpec.serviceUp)))
  = None.
Proof.
  eapply (read_settlement_discards_later_edits
            [Chat.ChangeFile (Some ChatSpec.notes); Chat.Submit;
             Chat.ChangeFile (Some ChatSpec.photo); Chat.ChangeInput "next"]
            0 ChatSpec.serviceUp).
  - reflexivity.
  - reflexivity.
Defined.

(** ** Invariants of the transcript *)

Section ChatInvariant.

Variable PA : Chat.Act -> Prop.
Variable PC : Chat.Call -> Prop.
Variable R : Chat.State -> Chat.State -> Prop.
Hypothesis R_refl : forall s, R s s.
Hypothesis R_trans : forall a b c, R a b -> R b c -> R a c.
Hypothesis R_perform : forall a s, PA a -> R s (Chat.perform a s).
Hypothesis PA_input : forall value, PA (Chat.SetInput value).
Hypothesis PA_file : forall file, PA (Chat.SetSelectedFile file).
Hypothesis submit_obeys :
  forall input selectedFile, Obeys PA PC (Chat.handleSubmit input selectedFile).

Lemma chat_step_keeps (w : Chat.Session) (ev : Chat.Event) :
  Sound PA PC w ->
  Sound PA PC (Chat.step w ev) /\ R (state w) (state (Chat.step w ev)).
Proof.
  intros Hw. destruct ev as [value | file | | i env]; simpl.
  - split; [exact Hw | apply (R_perform (Chat.SetInput value)), PA_input].
  - split; [exact Hw | apply (R_perform (Chat.SetSelectedFile file)), PA_file].
  - destruct (Chat.submitDisabled (state w)); [split; [exact Hw | apply R_refl]|].
    apply (resume_sound Chat.perform PA PC R R_refl R_trans R_perform);
      [apply submit_obeys | exact Hw].
  - apply (settle_at_sound Chat.perform PA PC R R_refl R_trans R_perform).
    exact Hw.
Qed.

Lemma chat_steps_keep (evs : list Chat.Event) (w : Chat.Session) :
  Sound PA PC w ->
  Sound PA PC (Chat.steps evs w) /\ R (state w) (state (Chat.steps evs w)).
Proof.
  revert w. induction evs as [|ev evs IH]; intros w Hw; simpl.
  - split; [exact Hw | apply R_refl].
  - destruct (chat_step_keeps w ev Hw) as [H1 H2].
    destruct (IH _ H1) as [H3 H4].
    split; [exact H3 | eapply R_trans; eassumption].
Qed.

End ChatInvariant.

Ltac well_formed_step :=
  first
    [ apply Obeys_Ret
    | apply Obeys_Do;
      [ simpl; try exact I;
        try (eexists; split; [intros; reflexivity|];
             constructor; [|constructor]; simpl;
             first [ reflexivity
                   | left; reflexivity
                   | right; eexists; reflexivity ])
      | ]
    | apply Obeys_Await;
      [ exact I
      | let r := fresh "r" in intros r; simpl in r; destruct r; simpl ] ].

Lemma handleSubmit_well_formed (input : string)
  (selectedFile : option Chat.File) :
  Obeys ChatLegs.appendsWellFormed (fun _ => True)
    (Chat.handleSubmit input selectedFile).
Proof.
  unfold Chat.handleSubmit. simpl.
  apply Obeys_Do; [exact I|].
  destruct (negb (Js.truthy (Js.trim input)) &&
            negb match selectedFile with Some _ => true | None => false end);
    [apply Obeys_Ret|].
  destruct selectedFile as [file|]; simpl;
    [destruct (Js.startsWith (Chat.type file) "image/"); simpl|];
    repeat well_formed_step;
    destruct x as [[[m|]]|]; simpl; repeat well_formed_step.
Qed.

Lemma keepsWellFormed_perform (a : Chat.Act) (s : Chat.State) :
  ChatLegs.appendsWellFormed a ->
  ChatLegs.keepsWellFormed s (Chat.perform a s).
Proof.
  unfold ChatLegs.keepsWellFormed.
  destruct a; simpl; intros H Hs; try exact Hs.
  destruct H as (l & Hl & Hwf). rewrite Hl.
  apply Forall_app. split; assumption.
Qed.

(** X6.  Every entry of the transcript is well formed, whatever the
    user does and however the reads and calls settle: an assistant
    entry, reply or diagnostic, carries no images, and a user entry
    carries none or exactly one. *)
Theorem transcript_entries_well_formed (evs : list Chat.Event) :
  Forall ChatLegs.wellFormed
    (Chat.messages (state (Chat.steps evs Chat.mount))).
Proof.
  destruct (chat_steps_keep ChatLegs.appendsWellFormed (fun _ => True)
              ChatLegs.keepsWellFormed
              (fun s H => H)
              (fun a b c H1 H2 H => H2 (H1 H))
              keepsWellFormed_perform
              (fun _ => I) (fun _ => I)
              handleSubmit_well_formed
              evs Chat.mount) as [_ H].
  - repeat split; constructor.
  - apply H. constructor.
Qed.

(** ** What is shown is what is sent *)

Lemma userTexts_app (a b : list Chat.Message) :
  ChatLegs.userTexts (a ++ b) = ChatLegs.userTexts a ++ ChatLegs.userTexts b.
Proof. unfold ChatLegs.userTexts. rewrite filter_app, map_app. reflexivity. Qed.

Lemma run_sync_paired (pending : list string) (p : Chat.Handler unit) :
  ChatLegs.Paired pending p ->
  forall s,
    exists new,
      Chat.messages (fst (run_sync Chat.perform p s)) = Chat.messages s ++ new
      /\ match snd (run_sync Chat.perform p s) with
         | Ret _ => pending ++ ChatLegs.userTexts new = []
         | Await c k =>
             ChatLegs.requestTexts c = pending ++ ChatLegs.userTexts new
             /\ forall r, ChatLegs.Paired [] (k r)
         | _ => False
         end.
Proof.
  induction 1 as [ | pending f new k Hf Hk IH | pending a k Ha Hk IH
                 | pending c k Hc Hk IH ]; intros s.
  - exists []. split; [symmetry; apply app_nil_r | reflexivity].
  - destruct (IH (Chat.perform (Chat.SetMessages f) s)) as (new' & H1 & H2).
    exists (new ++ new').
    change (run_sync Chat.perform (Do (Chat.SetMessages f) k) s)
      with (run_sync Chat.perform k (Chat.perform (Chat.SetMessages f) s)).
    split.
    + rewrite H1. simpl. rewrite Hf. symmetry. apply app_assoc.
    + rewrite userTexts_app, app_assoc. exact H2.
  - destruct (IH (Chat.perform a s)) as (new' & H1 & H2).
    exists new'.
    change (run_sync Chat.perform (Do a k) s)
      with (run_sync Chat.perform k (Chat.perform a s)).
    split; [|exact H2].
    rewrite H1. destruct a; try discriminate Ha; reflexivity.
  - exists []. simpl. split; [symmetry; apply app_nil_r|].
    split; [rewrite Hc; symmetry; apply app_nil_r | exact Hk].
Qed.

Ltac paired_step :=
  first
    [ apply ChatLegs.Paired_Ret
    | eapply ChatLegs.Paired_Set; [intros; reflexivity | simpl]
    | apply ChatLegs.Paired_Do; [reflexivity | ]
    | apply ChatLegs.Paired_Await;
      [ reflexivity
      | let r := fresh "r" in intros r; simpl in r; destruct r; simpl ] ].

Lemma handleSubmit_paired (input : string) (selectedFile : option Chat.File) :
  ChatLegs.Paired [] (Chat.handleSubmit input selectedFile).
Proof.
  unfold Chat.handleSubmit. simpl.
  apply ChatLegs.Paired_Do; [reflexivity|].
  destruct (negb (Js.truthy (Js.trim input)) &&
            negb match selectedFile with Some _ => true | None => false end);
    [apply ChatLegs.Paired_Ret|].
  destruct selectedFile as [file|]; simpl;
    [destruct (Js.startsWith (Chat.type file) "image/"); simpl|];
    repeat paired_step;
    destruct x as [[[m|]]|]; simpl; repeat paired_step.
Qed.

Lemma resume_instep (p : Chat.Handler unit) (w : Chat.Session) :
  ChatLegs.Paired [] p -> ChatLegs.InStep w ->
  ChatLegs.InStep (resume Chat.perform p w).
Proof.
  intros Hp [Htexts Hfl].
  destruct (run_sync_paired [] p Hp (state w)) as (new & H1 & H2).
  unfold ChatLegs.InStep, resume.
  destruct (run_sync Chat.perform p (state w)) as [s' rest].
  simpl in H1, H2.
  destruct rest as [[] | e | a k | c k]; try contradiction; simpl.
  - split; [|exact Hfl].
    rewrite H1, userTexts_app, H2, app_nil_r. exact Htexts.
  - destruct H2 as [H2 Hk]. split.
    + rewrite H1, userTexts_app, flat_map_app. simpl.
      rewrite app_nil_r, H2, Htexts. reflexivity.
    + apply Forall_app. split; [exact Hfl|].
      constructor; [exact Hk | constructor].
Qed.

Lemma instep_step (w : Chat.Session) (ev : Chat.Event) :
  ChatLegs.InStep w -> ChatLegs.InStep (Chat.step w ev).
Proof.
  intros Hw. destruct ev as [value | file | | i env]; simpl.
  - exact Hw.
  - exact Hw.
  - destruct (Chat.submitDisabled (state w)); [exact Hw|].
    apply resume_instep; [apply handleSubmit_paired | exact Hw].
  - unfold settle_at.
    destruct (nth_error (inflight w) i) as [h|] eqn:Hnth; [|exact Hw].
    destruct Hw as [Htexts Hfl].
    assert (Hh : ChatLegs.pairedInFlight h).
    { rewrite Forall_forall in Hfl. apply Hfl.
      eapply nth_error_In. exact Hnth. }
    destruct h as [a | e | a k | c k]; try contradiction.
    apply resume_instep; [apply Hh|].
    split; [exact Htexts | apply Forall_remove_nth; exact Hfl].
Qed.

(** X7.  What the model is sent is what the transcript shows as the
    user's.  Whatever the user does and however the reads and calls
    settle, the texts of the inference requests issued so far are the
    texts of the user's entries of the transcript, one request for each
    entry, in the same order. *)
Theorem requests_match_user_entries (evs : list Chat.Event) :
  ChatLegs.userTexts (Chat.messages (state (Chat.steps evs Chat.mount)))
  = flat_map ChatLegs.requestTexts (calls (Chat.steps evs Chat.mount)).
Proof.
  assert (H : forall w, ChatLegs.InStep w ->
                        ChatLegs.InStep (Chat.steps evs w)).
  { induction evs as [|ev evs IH]; intros w Hw; simpl.
    - exact Hw.
    - apply IH, instep_step, Hw. }
  apply (H Chat.mount). split; [reflexivity | constructor].
Qed.

(* ================================================================== *)
(** * Further properties of the login gate *)
(* ================================================================== *)



(** X9.  Nobody gets in unless both variables are configured and not
    empty.  If some sequence of events leaves the page authenticated,
    then the username and the password are both defined in the build
    and neither is the empty string: an undefined variable never equals
    a typed string, and the form is not submitted with an empty
    field. *)
Theorem login_needs_nonempty_configuration (env : AuthForm.ImportMetaEnv)
  (evs : list App.Event) :
  App.isAuthenticated (state (App.steps env evs App.start)) = true ->
  exists u p, AppSpec.credentialsMatch env u p /\ u <> "" /\ p <> "".
Proof.
  induction evs as [|ev evs IH] using rev_ind.
  - intros H. discriminate H.
  - rewrite app_steps_snoc. intros H.
    destruct (App.isAuthenticated (state (App.steps env evs App.start))) eqn:E.
    + apply IH. reflexivity.
    + destruct (flag_step env _ ev (inflight_steps env evs))
        as [Hs | [(_ & i & reply & h & u & p & Hlogin) | (Hf & _)]].
      * rewrite Hs, E in H. discriminate H.
      * exists u, p. destruct Hlogin as (_ & _ & _ & Hm & Hne).
        split; [exact Hm | exact Hne].
      * rewrite Hf in H. discriminate H.
Qed.

Lemma login_needs_nonempty_configuration_witness :
  exists u p,
    AppSpec.credentialsMatch AppSpec.configured u p /\ u <> "" /\ p <> "".
Proof.
  apply (login_needs_nonempty_configuration AppSpec.configured
           [App.ChangeUsername "admin"; App.ChangePassword "hunter2";
            App.SubmitAuth; App.SettleAuth 0 AppSpec.animates]).
  reflexivity.
Defined.

Lemma handleAuth_alerts_one_text (env : AuthForm.ImportMetaEnv)
  (username password : string) :
  Obeys AppLegs.alertsOneText (fun _ => True)
    (AuthForm.handleAuth env username password).
Proof.
  unfold AuthForm.handleAuth. simpl.
  repeat (constructor; try exact I). intros [].
  destruct (Js.strict_eq username (AuthForm.VITE_AUTH_USERNAME env)
            && Js.strict_eq password (AuthForm.VITE_AUTH_PASSWORD env)); simpl.
  - repeat (constructor; try exact I).
  - constructor; [exact I|]. intros r. destruct r as [[]|e]; simpl;
      repeat (constructor; try exact I; try reflexivity).
Qed.

Lemma keepsOneText_perform (a : AuthForm.Act) (s : App.State) :
  AppLegs.alertsOneText a -> AppLegs.keepsOneText s (App.perform a s).
Proof.
  unfold AppLegs.keepsOneText.
  destruct a; simpl; intros H Hs; try exact Hs.
  - destruct (App.child s); exact Hs.
  - apply Forall_app. split; [exact Hs|]. constructor; [exact H | constructor].
Qed.

Lemma exit_keeps (PA : AuthForm.Act -> Prop) (PC : AuthForm.Call -> Prop)
  (m : App.Machine) :
  Sound PA PC m ->
  Sound PA PC (App.exitComplete m)
  /\ App.alerts (state (App.exitComplete m)) = App.alerts (state m).
Proof.
  intros (H1 & H2 & H3). unfold App.exitComplete.
  destruct (App.isAuthenticated (state m)), (App.child (state m)); simpl;
    repeat split; try assumption.
  apply Forall_map. apply (Forall_impl _ (orphan_obeys PA PC)). exact H1.
Qed.

Lemma alerts_step (env : AuthForm.ImportMetaEnv) (m : App.Machine)
  (ev : App.Event) :
  Sound AppLegs.alertsOneText (fun _ => True) m ->
  Sound AppLegs.alertsOneText (fun _ => True) (App.step env m ev)
  /\ AppLegs.keepsOneText (state m) (state (App.step env m ev)).
Proof.
  intros Hm.
  assert (Hrefl : forall s, AppLegs.keepsOneText s s) by (intros s H; exact H).
  assert (Htrans : forall a b c, AppLegs.keepsOneText a b ->
                     AppLegs.keepsOneText b c -> AppLegs.keepsOneText a c)
    by (intros a b c H1 H2 H; exact (H2 (H1 H))).
  destruct ev as [value | value | | i reply | cev | |]; simpl.
  - split; [exact Hm|]. unfold AppLegs.keepsOneText, App.onForm.
    destruct (App.child (state m)); intros H; exact H.
  - split; [exact Hm|]. unfold AppLegs.keepsOneText, App.onForm.
    destruct (App.child (state m)); intros H; exact H.
  - destruct (App.child (state m)) as [form|chat]; [|split; [exact Hm | apply Hrefl]].
    destruct (AuthForm.submitBlocked form); [split; [exact Hm | apply Hrefl]|].
    apply (resume_sound App.perform AppLegs.alertsOneText (fun _ => True)
             AppLegs.keepsOneText Hrefl Htrans keepsOneText_perform
             (AuthForm.handleAuth env (AuthForm.username form)
                (AuthForm.password form)) m
             (handleAuth_alerts_one_text env _ _) Hm).
  - apply (settle_at_sound App.perform AppLegs.alertsOneText (fun _ => True)
             AppLegs.keepsOneText Hrefl Htrans keepsOneText_perform
             i reply m Hm).
  - split; [exact Hm|]. unfold AppLegs.keepsOneText, App.onChat.
    destruct (App.child (state m)); intros H; exact H.
  - destruct (App.child (state m)) as [form|chat]; split;
      try exact Hm; try apply Hrefl. intros H. exact H.
  - destruct (exit_keeps AppLegs.alertsOneText (fun _ => True) m Hm) as [H3 H4].
    split; [exact H3|]. intros H. rewrite H4. exact H.
Qed.

(** X10.  The login form tells a failed attempt in one way only.
    Whatever is typed and submitted, every alert ever shown has the
    text "Invalid credentials", the same for a wrong username and a
    wrong password, and no exception of a login handler goes
    uncaught. *)
Theorem alerts_never_tell_which_field (env : AuthForm.ImportMetaEnv)
  (evs : list App.Event) :
  Forall (fun text => text = "Invalid credentials")
    (App.alerts (state (App.steps env evs App.start)))
  /\ uncaught (App.steps env evs App.start) = [].
Proof.
  assert (H : forall m,
             Sound AppLegs.alertsOneText (fun _ => True) m ->
             Sound AppLegs.alertsOneText (fun _ => True) (App.steps env evs m)
             /\ AppLegs.keepsOneText (state m) (state (App.steps env evs m))).
  { induction evs as [|ev evs IH]; intros m Hm; simpl.
    - split; [exact Hm | intros H; exact H].
    - destruct (alerts_step env m ev Hm) as [H1 H2].
      destruct (IH _ H1) as [H3 H4].
      split; [exact H3 | intros H; apply H4, H2, H]. }
  destruct (H App.start) as [(_ & _ & H1) H2].
  - repeat split; constructor.
  - split; [apply H2; constructor | exact H1].
Qed.

(** X11.  The pair that is checked is the pair that was submitted.
    On every reachable page, what is typed into the username or the
    password field while an attempt is in its delay has no effect on
    how the attempt ends: the authentication flag after the delay is
    the same with and without the edit. *)
Theorem edits_during_delay_do_not_count (env : AuthForm.ImportMetaEnv)
  (evs : list App.Event) (edit : App.Event) (i : nat)
  (reply : forall c, AuthForm.Reply c) :
  (exists value,
     edit = App.ChangeUsername value \/ edit = App.ChangePassword value) ->
  App.isAuthenticated
    (state (App.step env (App.step env (App.steps env evs App.start) edit)
              (App.SettleAuth i reply)))
  = App.isAuthenticated
      (state (App.step env (App.steps env evs App.start)
                (App.SettleAuth i reply))).
Proof.
  intros (value & Hedit).
  pose proof (inflight_steps env evs) as Hok.
  set (m := App.steps env evs App.start) in *.
  assert (Hsame : inflight (App.step env m edit) = inflight m
                  /\ App.isAuthenticated (state (App.step env m edit))
                     = App.isAuthenticated (state m)).
  { destruct Hedit as [-> | ->]; simpl;
      (split; [reflexivity | apply onForm_flag]). }
  destruct Hsame as (Hin & Hfl).
  set (m' := App.step env m edit) in *.
  simpl.
  destruct (nth_error (inflight m) i) as [h|] eqn:Hnth.
  2:{ unfold settle_at. rewrite Hin, Hnth. exact Hfl. }
  assert (Hnth' : nth_error (inflight m') i = Some h) by (rewrite Hin; exact Hnth).
  assert (Hh : (exists u p, AppSpec.Submitted env u p h /\ u <> "" /\ p <> "")
               \/ AppSpec.quiet h).
  { unfold AppSpec.InFlight in Hok. rewrite Forall_forall in Hok.
    apply Hok. apply (nth_error_In _ _ Hnth). }
  destruct Hh as [(u & p & Hs & _) | Hq].
  - destruct (settle_flag_submitted env u p h m i reply Hnth Hs) as (Hyes & Hno & _).
    destruct (settle_flag_submitted env u p h m' i reply Hnth' Hs) as (Hyes' & Hno' & _).
    pose proof (credentials_checked env u p) as Hc.
    destruct (Js.strict_eq u (AuthForm.VITE_AUTH_USERNAME env)
              && Js.strict_eq p (AuthForm.VITE_AUTH_PASSWORD env)) eqn:E.
    + assert (Hm : AppSpec.credentialsMatch env u p) by (apply Hc; reflexivity).
      rewrite (Hyes Hm), (Hyes' Hm). reflexivity.
    + assert (Hn : ~ AppSpec.credentialsMatch env u p).
      { intros H. apply Hc in H. discriminate H. }
      rewrite (Hno Hn), (Hno' Hn). exact Hfl.
  - destruct (settle_flag_quiet h m i reply Hnth Hq) as (H1 & _).
    destruct (settle_flag_quiet h m' i reply Hnth' Hq) as (H1' & _).
    rewrite H1, H1'. exact Hfl.
Qed.

Lemma edits_during_delay_do_not_count_witness :
  App.isAuthenticated
    (state
       (App.step AppSpec.configured
          (App.step AppSpec.configured
             (App.steps AppSpec.configured
                [App.ChangeUsername "admin"; App.ChangePassword "hunter2";
                 App.SubmitAuth] App.start)
             (App.ChangePassword "oops"))
          (App.SettleAuth 0 AppSpec.animates)))
  = true.
Proof.
  rewrite (edits_during_delay_do_not_count AppSpec.configured
             [App.ChangeUsername "admin"; App.ChangePassword "hunter2";
              App.SubmitAuth]
             (App.ChangePassword "oops") 0 AppSpec.animates).
  - reflexivity.
  - exists "oops". right. reflexivity.
Defined.
